(** * Verification of the OpenSpace streaming supervisor (src/supervisor.py)
      and of the reverse proxy handler (src/secure_deployment/proxy.py).

    The supervisor keeps a module-level list [Processes] of [OsProcess]
    slots.  It is mutated by the websocket command handler [processMessage],
    by one background thread per START ([runOpenspace]) and by the
    deinitialization [Timer] threads.  We embed:
    - Python values received by [json.loads] and sent by [json.dumps]
      as the inductive [PyVal];
    - the command handler as a state and exception monad over a [World]
      record holding the slot list, the armed timers, the launcher threads,
      the live OS processes, a clock and the websocket outbox;
    - the launcher threads, timers and the environment as a step relation;
    - the module-level constant [RunOpenSpaceInShell = False]: the handler is
      embedded for the direct launch mode, the one the source configures. *)

From Stdlib Require Import ZArith List String Ascii Bool Lia.
From Stdlib Require DecimalPos DecimalN.
Import ListNotations.
Open Scope string_scope.

(* ------------------------------------------------------------------ *)
(** ** Python values and exceptions *)

Inductive State := IDLE | INITIALIZING | RUNNING | DEINITIALIZING | INVALID.

Definition state_eqb (a b : State) : bool :=
  match a, b with
  | IDLE, IDLE | INITIALIZING, INITIALIZING | RUNNING, RUNNING
  | DEINITIALIZING, DEINITIALIZING | INVALID, INVALID => true
  | _, _ => false
  end.

Lemma state_eqb_spec a b : state_eqb a b = true <-> a = b.
Proof. destruct a, b; simpl; split; congruence. Qed.

#[local] Set Warnings "-register-all".

(** Values as [json.loads] produces them (no floats), plus enum members,
    which a handler may put into a reply dict.  A [PDict] is a Python dict:
    keys are unique and kept in insertion order. *)
Inductive PyVal :=
| PNone
| PBool (b : bool)
| PInt (z : Z)
| PStr (s : string)
| PList (l : list PyVal)
| PDict (d : list (string * PyVal))
| PEnum (s : State).

Inductive Exn :=
| JSONDecodeError
| KeyError
| TypeError
| IndexError
| AttributeError
| RecursionError
| UnicodeDecodeError
| ValueError.

(** [d[k]] on a dict *)
Fixpoint dict_lookup (k : string) (d : list (string * PyVal)) : option PyVal :=
  match d with
  | [] => None
  | (k', v) :: d' => if String.eqb k k' then Some v else dict_lookup k d'
  end.

(** [d[k] = v]: an existing key keeps its position, a new key is appended. *)
Fixpoint dict_set (k : string) (v : PyVal) (d : list (string * PyVal))
  : list (string * PyVal) :=
  match d with
  | [] => [(k, v)]
  | (k', v') :: d' =>
      if String.eqb k k' then (k', v) :: d' else (k', v') :: dict_set k v d'
  end.

(** [x == "literal"] *)
Definition py_eq_str (v : PyVal) (s : string) : bool :=
  match v with PStr s' => String.eqb s' s | _ => false end.

(** An int operand: [bool] is a subclass of [int] in Python. *)
Definition as_int (v : PyVal) : option Z :=
  match v with
  | PInt z => Some z
  | PBool b => Some (if b then 1 else 0)%Z
  | _ => None
  end.

(* decimal printing, for [str(int)] *)
Fixpoint string_of_uint (u : Decimal.uint) : string :=
  match u with
  | Decimal.Nil => ""
  | Decimal.D0 u => String "0" (string_of_uint u)
  | Decimal.D1 u => String "1" (string_of_uint u)
  | Decimal.D2 u => String "2" (string_of_uint u)
  | Decimal.D3 u => String "3" (string_of_uint u)
  | Decimal.D4 u => String "4" (string_of_uint u)
  | Decimal.D5 u => String "5" (string_of_uint u)
  | Decimal.D6 u => String "6" (string_of_uint u)
  | Decimal.D7 u => String "7" (string_of_uint u)
  | Decimal.D8 u => String "8" (string_of_uint u)
  | Decimal.D9 u => String "9" (string_of_uint u)
  end.

Definition string_of_Z (z : Z) : string :=
  if (z <? 0)%Z then "-" ++ string_of_uint (N.to_uint (Z.to_N (- z)))
  else string_of_uint (N.to_uint (Z.to_N z)).

Definition state_repr (s : State) : string :=
  match s with
  | IDLE => "State.IDLE"
  | INITIALIZING => "State.INITIALIZING"
  | RUNNING => "State.RUNNING"
  | DEINITIALIZING => "State.DEINITIALIZING"
  | INVALID => "State.INVALID"
  end.

(** [repr] of a str.  A string of the model stands for a Python str whose
    code points are all below 256, one [ascii] per code point.  The text
    is put between single quotes, unless it holds a single quote and no
    double quote: then between double quotes.  A backslash and the quote
    chosen get a backslash in front; tab, newline and carriage return are
    written as backslash t, n, r; the other characters that are not
    printable (below 32, 127 to 160, and 173) are written as backslash x
    and two lowercase hex digits. *)
Definition backslash : ascii := "092".
Definition squote : ascii := "039".
Definition dquote : ascii := "034".

Definition hex_digit (n : nat) : ascii :=
  nth n (list_ascii_of_string "0123456789abcdef") "0"%char.

Definition repr_char (q c : ascii) : string :=
  let n := nat_of_ascii c in
  if Ascii.eqb c q || Ascii.eqb c backslash then String backslash (String c EmptyString)
  else if Nat.eqb n 9 then String backslash "t"
  else if Nat.eqb n 10 then String backslash "n"
  else if Nat.eqb n 13 then String backslash "r"
  else if Nat.ltb n 32 || Nat.eqb n 127 || (Nat.leb 128 n && Nat.leb n 160) || Nat.eqb n 173
  then String backslash (String "x" (String (hex_digit (n / 16))
                                       (String (hex_digit (n mod 16)) EmptyString)))
  else String c EmptyString.

Fixpoint repr_chars (q : ascii) (s : string) : string :=
  match s with
  | EmptyString => EmptyString
  | String c s' => repr_char q c ++ repr_chars q s'
  end.

Fixpoint has_char (c : ascii) (s : string) : bool :=
  match s with
  | EmptyString => false
  | String c' s' => Ascii.eqb c c' || has_char c s'
  end.

Definition repr_str (s : string) : string :=
  let q := if has_char squote s && negb (has_char dquote s) then dquote else squote in
  String q (repr_chars q s ++ String q EmptyString).

(** The values [auto()] gives the members of [State] *)
Definition state_value (s : State) : Z :=
  match s with
  | IDLE => 1 | INITIALIZING => 2 | RUNNING => 3 | DEINITIALIZING => 4 | INVALID => 5
  end.

(** [repr] of a value nested in a container *)
Fixpoint py_repr (v : PyVal) : string :=
  match v with
  | PNone => "None"
  | PBool true => "True"
  | PBool false => "False"
  | PInt z => string_of_Z z
  | PStr s => repr_str s
  | PList l =>
      "[" ++ (fix go (l : list PyVal) : string :=
                match l with
                | [] => ""
                | [x] => py_repr x
                | x :: l' => py_repr x ++ ", " ++ go l'
                end) l ++ "]"
  | PDict d =>
      "{" ++ (fix go (d : list (string * PyVal)) : string :=
                match d with
                | [] => ""
                | [(k, x)] => repr_str k ++ ": " ++ py_repr x
                | (k, x) :: d' => repr_str k ++ ": " ++ py_repr x ++ ", " ++ go d'
                end) d ++ "}"
  | PEnum s => "<" ++ state_repr s ++ ": " ++ string_of_Z (state_value s) ++ ">"
  end.

(** [str(v)], as an f-string renders it *)
Definition py_str (v : PyVal) : string :=
  match v with
  | PStr s => s
  | PEnum s => state_repr s
  | _ => py_repr v
  end.

(** [json.dumps]: an enum member is not JSON serializable.  The text it
    produces is represented by the value it encodes. *)
Fixpoint serializable (v : PyVal) : bool :=
  match v with
  | PEnum _ => false
  | PList l => forallb serializable l
  | PDict d => forallb (fun kv => serializable (snd kv)) d
  | _ => true
  end.

Definition json_dumps (v : PyVal) : Exn + PyVal :=
  if serializable v then inr v else inl TypeError.

(** Python list indexing [l[z]]: negative indices count from the end. *)
Definition py_norm (len : nat) (z : Z) : option nat :=
  if (0 <=? z)%Z && (z <? Z.of_nat len)%Z then Some (Z.to_nat z)
  else if (- Z.of_nat len <=? z)%Z && (z <? 0)%Z then Some (Z.to_nat (Z.of_nat len + z))
  else None.

Fixpoint update_nth {A} (n : nat) (f : A -> A) (l : list A) : list A :=
  match l, n with
  | [], _ => []
  | x :: l', O => f x :: l'
  | x :: l', S n' => x :: update_nth n' f l'
  end.

(* ------------------------------------------------------------------ *)
(** ** The slot pool and the world the supervisor acts on *)

(** [class OsProcess].  [handle] is the [subprocess.Popen] object of the
    instance, identified by a process number; [thread] the identity of the
    launcher thread.  The [stopSignal] event is never consulted by the code
    below and is left out. *)
Record OsProcess := mkOsProcess {
  state : State;
  handle : option nat;
  pid_OpenSpace : option Z;
  pid_ParentShell : option Z;
  thread : option nat
}.

(** [OsProcess.__init__] *)
Definition OsProcess_init : OsProcess :=
  mkOsProcess IDLE None None None None.

Definition setState (s : State) (p : OsProcess) : OsProcess :=
  mkOsProcess s (handle p) (pid_OpenSpace p) (pid_ParentShell p) (thread p).

Definition setProcessHandle (h : nat) (p : OsProcess) : OsProcess :=
  mkOsProcess (state p) (Some h) (pid_OpenSpace p) (pid_ParentShell p) (thread p).

Definition setThread (t : nat) (p : OsProcess) : OsProcess :=
  mkOsProcess (state p) (handle p) (pid_OpenSpace p) (pid_ParentShell p) (Some t).

(** [OsProcess.currentStateString] *)
Definition currentStateString (p : OsProcess) : string :=
  match state p with
  | IDLE => "IDLE"
  | INITIALIZING => "INITIALIZING"
  | RUNNING => "RUNNING"
  | DEINITIALIZING => "DEINITIALIZING"
  | INVALID => "INVALID"
  end.

(** Program counter of one [runOpenspace] thread (direct launch mode):
    before [subprocess.Popen]; in the warm-up delay and readiness handshake
    with the spawned process; in the poll-for-exit loop. *)
Inductive LauncherPc :=
| L_Spawn
| L_Handshake (proc : nat)
| L_WaitExit (proc : nat).

Record Launcher := mkLauncher {
  l_tid : nat;          (* thread identity *)
  l_id : Z;             (* the [instanceId] argument *)
  l_pc : LauncherPc
}.

Record World := mkWorld {
  Processes : list OsProcess;
  timers : list (Z * nat);        (* [Timer(5.0, ..., args=(idStopped,))]: slot, due time *)
  launchers : list Launcher;      (* live [runOpenspace] threads *)
  alive : list nat;               (* OS processes not yet exited *)
  clock : nat;                    (* milliseconds *)
  next_pid : nat;
  next_tid : nat;
  outbox : list PyVal             (* messages sent on the websocket *)
}.

Definition set_Processes (ps : list OsProcess) (w : World) : World :=
  mkWorld ps (timers w) (launchers w) (alive w) (clock w) (next_pid w) (next_tid w) (outbox w).
Definition set_timers (ts : list (Z * nat)) (w : World) : World :=
  mkWorld (Processes w) ts (launchers w) (alive w) (clock w) (next_pid w) (next_tid w) (outbox w).
Definition set_launchers (ls : list Launcher) (w : World) : World :=
  mkWorld (Processes w) (timers w) ls (alive w) (clock w) (next_pid w) (next_tid w) (outbox w).
Definition set_alive (a : list nat) (w : World) : World :=
  mkWorld (Processes w) (timers w) (launchers w) a (clock w) (next_pid w) (next_tid w) (outbox w).
Definition set_clock (c : nat) (w : World) : World :=
  mkWorld (Processes w) (timers w) (launchers w) (alive w) c (next_pid w) (next_tid w) (outbox w).
Definition set_next_pid (n : nat) (w : World) : World :=
  mkWorld (Processes w) (timers w) (launchers w) (alive w) (clock w) n (next_tid w) (outbox w).
Definition set_next_tid (n : nat) (w : World) : World :=
  mkWorld (Processes w) (timers w) (launchers w) (alive w) (clock w) (next_pid w) n (outbox w).
Definition set_outbox (o : list PyVal) (w : World) : World :=
  mkWorld (Processes w) (timers w) (launchers w) (alive w) (clock w) (next_pid w) (next_tid w) o.

(** The [__main__] block: [capacity] fresh slots, nothing else running. *)
Definition init_world (capacity : nat) : World :=
  mkWorld (repeat OsProcess_init capacity) [] [] [] 0 0 0 [].

(** [Timer(5.0, setTimerForDeinitializationPeriod, ...)] *)
Definition DeinitPeriod : nat := 5000.

(* ------------------------------------------------------------------ *)
(** ** A state and exception monad for the handler *)

Definition M (A : Type) := World -> (Exn + A) * World.

Definition ret {A} (a : A) : M A := fun w => (inr a, w).
Definition bind {A B} (m : M A) (k : A -> M B) : M B :=
  fun w => match m w with
           | (inl e, w') => (inl e, w')
           | (inr a, w') => k a w'
           end.
Definition raise {A} (e : Exn) : M A := fun w => (inl e, w).
Definition get : M World := fun w => (inr w, w).
Definition modify (f : World -> World) : M unit := fun w => (inr tt, f w).
Definition lift {A} (r : Exn + A) : M A := fun w => (r, w).

Notation "x <- m ;; k" := (bind m (fun x => k))
  (at level 61, m at next level, right associativity).
Notation "m ;;; k" := (bind m (fun _ => k)) (at level 61, right associativity).

(** [try: body except json.JSONDecodeError: handler] *)
Definition try_JSONDecodeError (body handler : M unit) : M unit :=
  fun w => match body w with
           | (inl JSONDecodeError, w') => handler w'
           | r => r
           end.

(** [len(Processes)] *)
Definition procs_len : M nat := fun w => (inr (List.length (Processes w)), w).

(** [Processes[i]] *)
Definition proc_at (i : Z) : M OsProcess :=
  fun w => match py_norm (List.length (Processes w)) i with
           | Some n => match nth_error (Processes w) n with
                       | Some p => (inr p, w)
                       | None => (inl IndexError, w)
                       end
           | None => (inl IndexError, w)
           end.

(** [Processes[i].method(...)], a method that mutates the slot *)
Definition proc_update (i : Z) (f : OsProcess -> OsProcess) : M unit :=
  fun w => match py_norm (List.length (Processes w)) i with
           | Some n => (inr tt, set_Processes (update_nth n f (Processes w)) w)
           | None => (inl IndexError, w)
           end.

(** [await sendMessage(websocket, json.dumps(result))] *)
Definition sendMessage (msg : PyVal) : M unit :=
  v <- lift (json_dumps msg) ;;
  modify (fun w => set_outbox (outbox w ++ [v])%list w).

(** [json_data[key]] *)
Definition py_getitem (v : PyVal) (key : string) : M PyVal :=
  match v with
  | PDict d => match dict_lookup key d with
               | Some x => ret x
               | None => raise KeyError
               end
  | _ => raise TypeError
  end.

(** [a < n] and [a >= n] with an int on the right *)
Definition py_lt (a : PyVal) (n : Z) : M bool :=
  match as_int a with Some z => ret (z <? n)%Z | None => raise TypeError end.
Definition py_ge (a : PyVal) (n : Z) : M bool :=
  match as_int a with Some z => ret (n <=? z)%Z | None => raise TypeError end.

(** [lst[v]] needs an int index *)
Definition py_index (v : PyVal) : M Z :=
  match as_int v with Some z => ret z | None => raise TypeError end.

(* ------------------------------------------------------------------ *)
(** ** The command handler [processMessage] *)

(** The ways [json.loads] fails other than with [json.JSONDecodeError] *)
Inductive LoadsFailure :=
| TooDeep       (* arrays or objects nested past the recursion limit: [RecursionError] *)
| NotUtf8       (* a binary frame whose bytes do not decode: [UnicodeDecodeError] *)
| LongInt.      (* an int literal of more than 4300 digits (Python 3.11 on): [ValueError] *)

(** The frame received on the websocket, as [json.loads] sees it: not JSON
    at all ([json.JSONDecodeError]), a frame on which [json.loads] fails
    otherwise, or the decoded value. *)
Inductive RawMessage :=
| NotJson
| LoadsFails (f : LoadsFailure)
| JsonText (v : PyVal).

Definition json_loads (m : RawMessage) : M PyVal :=
  match m with
  | NotJson => raise JSONDecodeError
  | LoadsFails TooDeep => raise RecursionError
  | LoadsFails NotUtf8 => raise UnicodeDecodeError
  | LoadsFails LongInt => raise ValueError
  | JsonText v => ret v
  end.

(** The reply template that [processMessage] parses with [json.loads]:
    command START, error none, id 0. *)
Definition result_template : list (string * PyVal) :=
  [("command", PStr "START"); ("error", PStr "none"); ("id", PInt 0)].

(** [for i in range(0, len(Processes)): if ... == State.IDLE: startId = i; break],
    starting from [startId = -1] *)
Fixpoint scan_idle (ps : list OsProcess) (i : Z) : Z :=
  match ps with
  | [] => (-1)%Z
  | p :: ps' => if state_eqb (state p) IDLE then i else scan_idle ps' (i + 1)
  end.

(** [for i in range(...): if ... != State.IDLE: nRunning += 1] *)
Fixpoint count_running (ps : list OsProcess) (nRunning : Z) : Z :=
  match ps with
  | [] => nRunning
  | p :: ps' =>
      count_running ps' (if negb (state_eqb (state p) IDLE) then nRunning + 1 else nRunning)
  end.

(** [Popen.kill()] on the instance *)
Definition kill (h : nat) (w : World) : World :=
  set_alive (filter (fun x => negb (Nat.eqb x h)) (alive w)) w.

(** [terminateOpenSpaceInstance(id)]: [getHandle()] is [None] until the
    launcher has stored the [Popen] object, and [None.kill()] raises
    [AttributeError]. *)
Definition terminateOpenSpaceInstance (id : Z) : M unit :=
  p <- proc_at id ;;
  let c := state p in
  if state_eqb c INITIALIZING || state_eqb c RUNNING || state_eqb c DEINITIALIZING then
    match handle p with
    | None => raise AttributeError
    | Some h => modify (kill h)
    end
  else ret tt.

(** [Timer(5.0, setTimerForDeinitializationPeriod, args=(id,)).start()] *)
Definition timer_start (id : Z) : M unit :=
  modify (fun w => set_timers (timers w ++ [(id, clock w + DeinitPeriod)])%list w).

(** [Processes[startId].setThread(Thread(target=runOpenspace, ...))];
    [.thread.start()] *)
Definition thread_start (startId : Z) : M unit :=
  w <- get ;;
  let t := next_tid w in
  proc_update startId (setThread t) ;;;
  modify (fun w => set_next_tid (S t)
                     (set_launchers (launchers w ++ [mkLauncher t startId L_Spawn])%list w)).

Definition processMessage_START (result : list (string * PyVal)) : M unit :=
  w <- get ;;
  let startId := scan_idle (Processes w) 0 in
  (if negb (startId =? -1)%Z then
     thread_start startId ;;;
     proc_update startId (setState INITIALIZING)
   else ret tt) ;;;
  let result := if negb (startId =? -1)%Z then result
                else dict_set "error" (PStr "no available slots") result in
  let result := dict_set "id" (PInt startId) result in
  sendMessage (PDict result).

Definition processMessage_STOP (json_data : PyVal) (result : list (string * PyVal)) : M unit :=
  idToStop <- py_getitem json_data "id" ;;
  let result := dict_set "id" idToStop result in
  n <- procs_len ;;
  in_range <- py_lt idToStop (Z.of_nat n) ;;
  if in_range then
    i <- py_index idToStop ;;
    p <- proc_at i ;;
    let result := if state_eqb (state p) IDLE
                  then dict_set "error" (PStr "not running") result else result in
    sendMessage (PDict result) ;;;
    p' <- proc_at i ;;
    if negb (state_eqb (state p') IDLE) then
      proc_update i (setState DEINITIALIZING) ;;;
      timer_start i ;;;
      (* [RunOpenSpaceInShell] is [False] *)
      terminateOpenSpaceInstance i
    else ret tt
  else
    sendMessage (PDict (dict_set "error" (PStr "invalid id") result)).

Definition processMessage_STATUS (json_data : PyVal) (result : list (string * PyVal)) : M unit :=
  idForStatus <- py_getitem json_data "id" ;;
  n <- procs_len ;;
  below <- py_lt idForStatus (Z.of_nat n) ;;
  ok <- (if below then py_ge idForStatus 0 else ret false) ;;
  result <- (if ok then
               i <- py_index idForStatus ;;
               p <- proc_at i ;;
               ret (dict_set "status" (PStr (currentStateString p)) result)
             else
               ret (dict_set "error" (PStr "invalid id")
                      (dict_set "status" (PEnum INVALID) result))) ;;
  sendMessage (PDict result).

Definition processMessage_SERVER_STATUS (result : list (string * PyVal)) : M unit :=
  w <- get ;;
  let nRunning := count_running (Processes w) 0 in
  let result := dict_set "running" (PInt nRunning) result in
  let result := dict_set "total" (PInt (Z.of_nat (List.length (Processes w)))) result in
  sendMessage (PDict result).

(** [async def processMessage(websocket, message, openspaceBaseDir)] *)
Definition processMessage (message : RawMessage) : M unit :=
  try_JSONDecodeError
    (json_data <- json_loads message ;;
     command <- py_getitem json_data "command" ;;
     let result := dict_set "command" command result_template in
     if py_eq_str command "START" then processMessage_START result
     else if py_eq_str command "STOP" then processMessage_STOP json_data result
     else if py_eq_str command "STATUS" then processMessage_STATUS json_data result
     else if py_eq_str command "SERVER_STATUS" then processMessage_SERVER_STATUS result
     else sendMessage (PDict [("error", PStr ("invalid message received: " ++ py_str command))]))
    (sendMessage (PDict [("error", PStr "json decode error")])).

(* ------------------------------------------------------------------ *)
(** ** Launcher threads, timers and the environment *)

(** A slot update made outside the handler; an out-of-range index raises
    in that thread and changes nothing. *)
Definition upd_proc (i : Z) (f : OsProcess -> OsProcess) (w : World) : World :=
  snd (proc_update i f w).

Definition put_launchers (pre : list Launcher) (l : option Launcher)
    (post : list Launcher) (w : World) : World :=
  set_launchers (pre ++ match l with Some l => [l] | None => [] end ++ post)%list w.

(** [runOpenspace], direct mode: [process = subprocess.Popen(...)];
    [Processes[instanceId].setProcessHandle(process)] *)
Definition launcher_popen (pre : list Launcher) (l : Launcher) (post : list Launcher)
    (w : World) : World :=
  let h := next_pid w in
  let w := set_alive (h :: alive w) (set_next_pid (S h) w) in
  let w := upd_proc (l_id l) (setProcessHandle h) w in
  put_launchers pre (Some (mkLauncher (l_tid l) (l_id l) (L_Handshake h))) post w.

(** after [mainLoop()] returns: [Processes[instanceId].setState(State.RUNNING)] *)
Definition launcher_ready (pre : list Launcher) (l : Launcher) (h : nat)
    (post : list Launcher) (w : World) : World :=
  let w := upd_proc (l_id l) (setState RUNNING) w in
  put_launchers pre (Some (mkLauncher (l_tid l) (l_id l) (L_WaitExit h))) post w.

(** after the poll loop sees the exit: [Processes[instanceId].setState(State.IDLE)] *)
Definition launcher_exited (pre : list Launcher) (l : Launcher) (post : list Launcher)
    (w : World) : World :=
  let w := upd_proc (l_id l) (setState IDLE) w in
  put_launchers pre None post w.

(** [setTimerForDeinitializationPeriod(idStopped)] *)
Definition setTimerForDeinitializationPeriod (idStopped : Z) (w : World) : World :=
  upd_proc idStopped (setState IDLE) w.

(** What happens next in the system. *)
Inductive Label :=
| LMessage (msg : RawMessage)   (* a command arrives and is handled *)
| LPopen                        (* a launcher spawns its instance *)
| LReady                        (* a launcher's readiness handshake returns *)
| LHandshakeFails               (* [os_api.connect()] raises: the thread ends *)
| LExited                       (* a launcher's poll loop sees the exit *)
| LProcessExits                 (* an instance quits on its own, e.g. from its GUI *)
| LTick                         (* one millisecond passes *)
| LTimer.                       (* a due timer fires *)

Inductive lstep : Label -> World -> World -> Prop :=
| step_message w msg :
    lstep (LMessage msg) w (snd (processMessage msg w))
| step_popen w pre l post :
    launchers w = (pre ++ l :: post)%list -> l_pc l = L_Spawn ->
    lstep LPopen w (launcher_popen pre l post w)
| step_ready w pre l post h :
    launchers w = (pre ++ l :: post)%list -> l_pc l = L_Handshake h ->
    lstep LReady w (launcher_ready pre l h post w)
| step_handshake_fails w pre l post h :
    launchers w = (pre ++ l :: post)%list -> l_pc l = L_Handshake h ->
    lstep LHandshakeFails w (put_launchers pre None post w)
| step_exited w pre l post h :
    launchers w = (pre ++ l :: post)%list -> l_pc l = L_WaitExit h ->
    ~ In h (alive w) ->
    lstep LExited w (launcher_exited pre l post w)
| step_process_exits w h :
    In h (alive w) -> lstep LProcessExits w (kill h w)
| step_tick w :
    lstep LTick w (set_clock (S (clock w)) w)
| step_timer w pre id due post :
    timers w = (pre ++ (id, due) :: post)%list -> due <= clock w ->
    lstep LTimer w (setTimerForDeinitializationPeriod id (set_timers (pre ++ post)%list w)).

(** Runs from the initial pool whose steps all satisfy [ok]. *)
Inductive run (ok : Label -> Prop) (capacity : nat) : World -> Prop :=
| run_init : run ok capacity (init_world capacity)
| run_step w lb w' : run ok capacity w -> ok lb -> lstep lb w w' -> run ok capacity w'.

Definition reachable (capacity : nat) : World -> Prop := run (fun _ => True) capacity.

(** Letting [d] milliseconds pass with no other event: every timer that
    falls due fires, in the order the timers were armed. *)
Definition fire_due (w : World) : World :=
  let now := clock w in
  let due := filter (fun t => Nat.leb (snd t) now) (timers w) in
  let w' := set_timers (filter (fun t => negb (Nat.leb (snd t) now)) (timers w)) w in
  fold_left (fun w t => setTimerForDeinitializationPeriod (fst t) w) due w'.

Definition advance (d : nat) (w : World) : World :=
  fire_due (set_clock (clock w + d) w).

(* ------------------------------------------------------------------ *)
(** ** Sample runs *)

Definition stop_msg (id : PyVal) : RawMessage :=
  JsonText (PDict [("command", PStr "STOP"); ("id", id)]).
Definition status_msg (id : PyVal) : RawMessage :=
  JsonText (PDict [("command", PStr "STATUS"); ("id", id)]).
Definition start_msg : RawMessage := JsonText (PDict [("command", PStr "START")]).
Definition server_status_msg : RawMessage :=
  JsonText (PDict [("command", PStr "SERVER_STATUS")]).

Definition run_messages (msgs : list RawMessage) (w : World) : World :=
  fold_left (fun w m => snd (processMessage m w)) msgs w.

Example scenario_start_start :
  outbox (run_messages [start_msg; start_msg] (init_world 3)) =
  [PDict [("command", PStr "START"); ("error", PStr "none"); ("id", PInt 0)];
   PDict [("command", PStr "START"); ("error", PStr "none"); ("id", PInt 1)]].
Proof. reflexivity. Qed.

(* ------------------------------------------------------------------ *)
(** ** Lemmas on the embedding *)

(** The state of slot [n], if there is one. *)
Definition slot_state (w : World) (n : nat) : option State :=
  option_map state (nth_error (Processes w) n).

Lemma update_nth_length {A} n (f : A -> A) l :
  List.length (update_nth n f l) = List.length l.
Proof. revert n; induction l; intros [|n]; simpl; auto. Qed.

Lemma nth_error_update_nth_same {A} n (f : A -> A) l :
  nth_error (update_nth n f l) n = option_map f (nth_error l n).
Proof. revert n; induction l; intros [|n]; simpl; auto. Qed.

Lemma nth_error_update_nth_other {A} n m (f : A -> A) l :
  n <> m -> nth_error (update_nth n f l) m = nth_error l m.
Proof.
  revert n m; induction l; intros [|n] [|m] Hnm; simpl; auto; try congruence.
Qed.

Lemma py_norm_nat len n : n < len -> py_norm len (Z.of_nat n) = Some n.
Proof.
  intros H; unfold py_norm.
  replace ((0 <=? Z.of_nat n)%Z && (Z.of_nat n <? Z.of_nat len)%Z) with true
    by (symmetry; apply andb_true_intro; split; [apply Z.leb_le | apply Z.ltb_lt]; lia).
  now rewrite Nat2Z.id.
Qed.

Lemma scan_idle_first ps i0 i p :
  nth_error ps i = Some p -> state p = IDLE ->
  (forall j q, j < i -> nth_error ps j = Some q -> state q <> IDLE) ->
  scan_idle ps i0 = (i0 + Z.of_nat i)%Z.
Proof.
  revert i0 i; induction ps as [|q ps IH]; intros i0 [|i] Hi Hs Hbefore; simpl in *.
  - discriminate.
  - discriminate.
  - inversion Hi; subst. rewrite Hs. simpl. lia.
  - assert (Hq : state q <> IDLE) by (apply (Hbefore 0 q); [lia | reflexivity]).
    destruct (state_eqb (state q) IDLE) eqn:E.
    + apply state_eqb_spec in E. contradiction.
    + rewrite (IH (i0 + 1)%Z i Hi Hs); [lia |].
      intros j r Hj Hr. apply (Hbefore (S j) r); [lia | exact Hr].
Qed.

Lemma scan_idle_none ps i0 :
  (forall j q, nth_error ps j = Some q -> state q <> IDLE) ->
  scan_idle ps i0 = (-1)%Z.
Proof.
  revert i0; induction ps as [|q ps IH]; intros i0 Hall; simpl; auto.
  destruct (state_eqb (state q) IDLE) eqn:E.
  - apply state_eqb_spec in E. exfalso; apply (Hall 0 q); auto.
  - apply IH. intros j r Hr. apply (Hall (S j) r). exact Hr.
Qed.

Lemma try_JSONDecodeError_other body handler w :
  fst (body w) <> inl JSONDecodeError ->
  try_JSONDecodeError body handler w = body w.
Proof.
  unfold try_JSONDecodeError. destruct (body w) as [[[] | []] w']; simpl; congruence.
Qed.

Definition decode_error_reply : PyVal := PDict [("error", PStr "json decode error")].

(** The handler on a dict message whose [command] is [c]. *)
Lemma processMessage_dict w d c :
  dict_lookup "command" d = Some c ->
  processMessage (JsonText (PDict d)) w =
  try_JSONDecodeError
    (let result := dict_set "command" c result_template in
     if py_eq_str c "START" then processMessage_START result
     else if py_eq_str c "STOP" then processMessage_STOP (PDict d) result
     else if py_eq_str c "STATUS" then processMessage_STATUS (PDict d) result
     else if py_eq_str c "SERVER_STATUS" then processMessage_SERVER_STATUS result
     else sendMessage (PDict [("error", PStr ("invalid message received: " ++ py_str c))]))
    (sendMessage decode_error_reply) w.
Proof. intros H. unfold processMessage, try_JSONDecodeError, bind, json_loads, ret, py_getitem. now rewrite H. Qed.

Definition start_result : list (string * PyVal) :=
  [("command", PStr "START"); ("error", PStr "none"); ("id", PInt 0)].

Lemma processMessage_START_found w result i :
  scan_idle (Processes w) 0 = Z.of_nat i -> i < List.length (Processes w) ->
  serializable (PDict (dict_set "id" (PInt (Z.of_nat i)) result)) = true ->
  processMessage_START result w =
  (inr tt, mkWorld (update_nth i (setState INITIALIZING)
                      (update_nth i (setThread (next_tid w)) (Processes w)))
             (timers w) (launchers w ++ [mkLauncher (next_tid w) (Z.of_nat i) L_Spawn])%list
             (alive w) (clock w) (next_pid w) (S (next_tid w))
             (outbox w ++ [PDict (dict_set "id" (PInt (Z.of_nat i)) result)])%list).
Proof.
  intros Hscan Hlen Hser.
  unfold processMessage_START, get, bind. rewrite Hscan.
  replace (Z.of_nat i =? -1)%Z with false by (symmetry; apply Z.eqb_neq; lia).
  simpl.
  unfold thread_start, get, bind, proc_update, modify, sendMessage, lift, json_dumps.
  rewrite py_norm_nat by exact Hlen. simpl.
  rewrite update_nth_length, py_norm_nat by exact Hlen. simpl.
  unfold bind. simpl in Hser. rewrite Hser. reflexivity.
Qed.

Lemma processMessage_START_none w result :
  scan_idle (Processes w) 0 = (-1)%Z ->
  serializable (PDict (dict_set "id" (PInt (-1))
                        (dict_set "error" (PStr "no available slots") result))) = true ->
  processMessage_START result w =
  (inr tt, set_outbox (outbox w ++ [PDict (dict_set "id" (PInt (-1))
                        (dict_set "error" (PStr "no available slots") result))])%list w).
Proof.
  intros Hscan Hser.
  unfold processMessage_START, get, bind. rewrite Hscan. simpl.
  unfold sendMessage, lift, json_dumps, bind, modify.
  simpl in Hser. simpl. rewrite Hser. reflexivity.
Qed.

Lemma processMessage_is_START w d :
  dict_lookup "command" d = Some (PStr "START") ->
  processMessage (JsonText (PDict d)) w =
  try_JSONDecodeError (processMessage_START start_result) (sendMessage decode_error_reply) w.
Proof. intros H. rewrite (processMessage_dict w d _ H). reflexivity. Qed.

(* ------------------------------------------------------------------ *)
(** ** C1: START claims the lowest-index IDLE slot *)

(** C1.  A START command selects the first slot, in ascending index order,
    whose state is IDLE: that slot becomes INITIALIZING (the other slots keep
    their states) and the reply is [{command: START, error: none, id: i}];
    when no slot is IDLE, no slot changes and the reply is
    [{command: START, error: "no available slots", id: -1}].  The handler
    raises nothing in either case. *)
Theorem start_claims_lowest_idle_slot (w : World) (d : list (string * PyVal)) :
  dict_lookup "command" d = Some (PStr "START") ->
  (forall i p,
     nth_error (Processes w) i = Some p -> state p = IDLE ->
     (forall j q, j < i -> nth_error (Processes w) j = Some q -> state q <> IDLE) ->
     let r := processMessage (JsonText (PDict d)) w in
     fst r = inr tt /\
     slot_state (snd r) i = Some INITIALIZING /\
     (forall j, j <> i -> slot_state (snd r) j = slot_state w j) /\
     outbox (snd r) =
       (outbox w ++ [PDict [("command", PStr "START"); ("error", PStr "none");
                            ("id", PInt (Z.of_nat i))]])%list) /\
  ((forall j q, nth_error (Processes w) j = Some q -> state q <> IDLE) ->
     let r := processMessage (JsonText (PDict d)) w in
     fst r = inr tt /\
     Processes (snd r) = Processes w /\
     outbox (snd r) =
       (outbox w ++ [PDict [("command", PStr "START"); ("error", PStr "no available slots");
                            ("id", PInt (-1))]])%list).
Proof.
  intros Hcmd. split.
  - intros i p Hi Hs Hbefore r.
    assert (Hscan : scan_idle (Processes w) 0 = Z.of_nat i)
      by (rewrite (scan_idle_first _ 0 i p Hi Hs Hbefore); lia).
    assert (Hlen : i < List.length (Processes w)) by (apply nth_error_Some; congruence).
    subst r. rewrite (processMessage_is_START w d Hcmd).
    rewrite try_JSONDecodeError_other;
      rewrite (processMessage_START_found w start_result i Hscan Hlen eq_refl); simpl;
      [| discriminate].
    repeat split.
    + unfold slot_state; simpl.
      rewrite nth_error_update_nth_same, nth_error_update_nth_same, Hi. reflexivity.
    + intros j Hj. unfold slot_state; simpl.
      rewrite !nth_error_update_nth_other by lia. reflexivity.
  - intros Hall r. subst r.
    rewrite (processMessage_is_START w d Hcmd).
    rewrite try_JSONDecodeError_other;
      rewrite (processMessage_START_none w start_result (scan_idle_none _ 0 Hall) eq_refl);
      simpl; [| discriminate].
    repeat split.
Qed.

(* ------------------------------------------------------------------ *)
(** ** C4: SERVER_STATUS *)

Definition busy (ps : list OsProcess) : list OsProcess :=
  filter (fun p => negb (state_eqb (state p) IDLE)) ps.

Lemma count_running_busy ps n :
  count_running ps n = (n + Z.of_nat (List.length (busy ps)))%Z.
Proof.
  revert n; induction ps as [|p ps IH]; intros n; simpl; [lia|].
  rewrite IH. destruct (negb (state_eqb (state p) IDLE)); simpl; lia.
Qed.

Lemma processMessage_is_SERVER_STATUS w d :
  dict_lookup "command" d = Some (PStr "SERVER_STATUS") ->
  processMessage (JsonText (PDict d)) w =
  try_JSONDecodeError
    (processMessage_SERVER_STATUS
       [("command", PStr "SERVER_STATUS"); ("error", PStr "none"); ("id", PInt 0)])
    (sendMessage decode_error_reply) w.
Proof. intros H. rewrite (processMessage_dict w d _ H). reflexivity. Qed.

(** C4.  For every pool, SERVER_STATUS replies with [running] equal to the
    number of slots whose state is not IDLE, [total] equal to the number of
    slots and [error] "none"; nothing else changes and nothing is raised. *)
Theorem server_status_counts_busy_slots (w : World) (d : list (string * PyVal)) :
  dict_lookup "command" d = Some (PStr "SERVER_STATUS") ->
  processMessage (JsonText (PDict d)) w =
  (inr tt,
   set_outbox (outbox w ++
     [PDict [("command", PStr "SERVER_STATUS"); ("error", PStr "none"); ("id", PInt 0);
             ("running", PInt (Z.of_nat (List.length (busy (Processes w)))));
             ("total", PInt (Z.of_nat (List.length (Processes w))))]])%list w).
Proof.
  intros H. rewrite (processMessage_is_SERVER_STATUS w d H).
  unfold try_JSONDecodeError, processMessage_SERVER_STATUS, get, bind,
    sendMessage, lift, json_dumps, modify.
  rewrite count_running_busy. reflexivity.
Qed.

(* ------------------------------------------------------------------ *)
(** ** STOP *)

Lemma processMessage_is_STOP w d :
  dict_lookup "command" d = Some (PStr "STOP") ->
  processMessage (JsonText (PDict d)) w =
  try_JSONDecodeError
    (processMessage_STOP (PDict d)
       [("command", PStr "STOP"); ("error", PStr "none"); ("id", PInt 0)])
    (sendMessage decode_error_reply) w.
Proof. intros H. rewrite (processMessage_dict w d _ H). reflexivity. Qed.

Lemma proc_at_nat w i p :
  nth_error (Processes w) i = Some p -> proc_at (Z.of_nat i) w = (inr p, w).
Proof.
  intros Hi. unfold proc_at.
  assert (Hlen : i < List.length (Processes w)) by (apply nth_error_Some; congruence).
  rewrite py_norm_nat by exact Hlen. now rewrite Hi.
Qed.

(** C7.  STOP on an in-range slot that is IDLE replies
    [{command: STOP, error: "not running", id}] and changes nothing else:
    no slot, no timer, no launcher, no process is touched. *)
Theorem stop_on_idle_slot_is_not_running (w : World) (d : list (string * PyVal))
    (i : nat) (p : OsProcess) :
  dict_lookup "command" d = Some (PStr "STOP") ->
  dict_lookup "id" d = Some (PInt (Z.of_nat i)) ->
  nth_error (Processes w) i = Some p -> state p = IDLE ->
  processMessage (JsonText (PDict d)) w =
  (inr tt,
   set_outbox (outbox w ++
     [PDict [("command", PStr "STOP"); ("error", PStr "not running");
             ("id", PInt (Z.of_nat i))]])%list w).
Proof.
  intros Hc Hid Hi Hs.
  assert (Hlen : i < List.length (Processes w)) by (apply nth_error_Some; congruence).
  rewrite (processMessage_is_STOP w d Hc).
  unfold try_JSONDecodeError, processMessage_STOP.
  cbv beta iota delta [bind ret py_getitem procs_len py_lt py_index as_int].
  rewrite Hid.
  replace (Z.of_nat i <? Z.of_nat (List.length (Processes w)))%Z with true
    by (symmetry; apply Z.ltb_lt; lia).
  rewrite (proc_at_nat w i p Hi), Hs. cbv beta iota.
  unfold sendMessage, lift, json_dumps, bind, modify. simpl.
  erewrite proc_at_nat by exact Hi. rewrite Hs. reflexivity.
Qed.

Lemma terminate_shape j w :
  fst (terminateOpenSpaceInstance j w) <> inl JSONDecodeError /\
  (snd (terminateOpenSpaceInstance j w) = w \/
   exists h, snd (terminateOpenSpaceInstance j w) = kill h w).
Proof.
  unfold terminateOpenSpaceInstance, bind, proc_at, ret, raise, modify.
  destruct (py_norm _ j) as [n|]; [|simpl; split; [discriminate | now left]].
  destruct (nth_error _ n) as [q|]; [|simpl; split; [discriminate | now left]].
  destruct (_ || _); [|simpl; split; [discriminate | now left]].
  destruct (handle q) as [h|]; simpl; split; try discriminate; eauto.
Qed.

Definition stop_reply (i : Z) (err : string) : PyVal :=
  PDict [("command", PStr "STOP"); ("error", PStr err); ("id", PInt i)].

(** STOP on an in-range slot that is not IDLE: the reply is sent, the slot
    becomes DEINITIALIZING, a timer is armed, then termination runs. *)
Lemma processMessage_STOP_busy w d i p :
  dict_lookup "command" d = Some (PStr "STOP") ->
  dict_lookup "id" d = Some (PInt (Z.of_nat i)) ->
  nth_error (Processes w) i = Some p -> state p <> IDLE ->
  processMessage (JsonText (PDict d)) w =
  terminateOpenSpaceInstance (Z.of_nat i)
    (mkWorld (update_nth i (setState DEINITIALIZING) (Processes w))
       (timers w ++ [(Z.of_nat i, clock w + DeinitPeriod)])%list
       (launchers w) (alive w) (clock w) (next_pid w) (next_tid w)
       (outbox w ++ [stop_reply (Z.of_nat i) "none"])%list).
Proof.
  intros Hc Hid Hi Hs.
  assert (Hlen : i < List.length (Processes w)) by (apply nth_error_Some; congruence).
  assert (Hb : state_eqb (state p) IDLE = false)
    by (destruct (state_eqb (state p) IDLE) eqn:E; [apply state_eqb_spec in E; contradiction | reflexivity]).
  rewrite (processMessage_is_STOP w d Hc).
  rewrite try_JSONDecodeError_other.
  - unfold processMessage_STOP.
    cbv beta iota delta [bind ret py_getitem procs_len py_lt py_index as_int].
    rewrite Hid.
    replace (Z.of_nat i <? Z.of_nat (List.length (Processes w)))%Z with true
      by (symmetry; apply Z.ltb_lt; lia).
    rewrite (proc_at_nat w i p Hi), Hb. cbv beta iota.
    unfold sendMessage, lift, json_dumps, modify. simpl.
    erewrite proc_at_nat by exact Hi. rewrite Hb. simpl.
    unfold proc_update. simpl. rewrite py_norm_nat by exact Hlen. simpl.
    reflexivity.
  - unfold processMessage_STOP.
    cbv beta iota delta [bind ret py_getitem procs_len py_lt py_index as_int].
    rewrite Hid.
    replace (Z.of_nat i <? Z.of_nat (List.length (Processes w)))%Z with true
      by (symmetry; apply Z.ltb_lt; lia).
    rewrite (proc_at_nat w i p Hi), Hb. cbv beta iota.
    unfold sendMessage, lift, json_dumps, modify. simpl.
    erewrite proc_at_nat by exact Hi. rewrite Hb. simpl.
    unfold proc_update. simpl. rewrite py_norm_nat by exact Hlen. simpl.
    apply terminate_shape.
Qed.

Lemma upd_proc_Processes j f w :
  Processes (upd_proc j f w) = Processes w \/
  exists n, Processes (upd_proc j f w) = update_nth n f (Processes w).
Proof.
  unfold upd_proc, proc_update. destruct (py_norm _ j) as [n|]; simpl; eauto.
Qed.

Lemma upd_proc_other_fields j f w :
  timers (upd_proc j f w) = timers w /\ launchers (upd_proc j f w) = launchers w /\
  alive (upd_proc j f w) = alive w /\ clock (upd_proc j f w) = clock w /\
  outbox (upd_proc j f w) = outbox w.
Proof.
  unfold upd_proc, proc_update. destruct (py_norm _ j); simpl; repeat split.
Qed.

Lemma setTimer_keeps_idle j w i :
  slot_state w i = Some IDLE ->
  slot_state (setTimerForDeinitializationPeriod j w) i = Some IDLE.
Proof.
  unfold setTimerForDeinitializationPeriod, slot_state. intros H.
  destruct (upd_proc_Processes j (setState IDLE) w) as [E | [n E]]; rewrite E; auto.
  destruct (Nat.eq_dec n i) as [->|Hne].
  - rewrite nth_error_update_nth_same.
    destruct (nth_error (Processes w) i); simpl in *; congruence.
  - rewrite nth_error_update_nth_other by exact Hne. exact H.
Qed.

Lemma setTimer_sets_idle w i :
  i < List.length (Processes w) ->
  slot_state (setTimerForDeinitializationPeriod (Z.of_nat i) w) i = Some IDLE.
Proof.
  intros Hlen. unfold setTimerForDeinitializationPeriod, upd_proc, proc_update, slot_state.
  rewrite py_norm_nat by exact Hlen. simpl.
  rewrite nth_error_update_nth_same.
  destruct (nth_error (Processes w) i) eqn:E; [reflexivity|].
  apply nth_error_None in E. lia.
Qed.

Lemma setTimer_length j w :
  List.length (Processes (setTimerForDeinitializationPeriod j w)) = List.length (Processes w).
Proof.
  unfold setTimerForDeinitializationPeriod.
  destruct (upd_proc_Processes j (setState IDLE) w) as [E | [n E]]; rewrite E;
    auto using update_nth_length.
Qed.

Lemma fold_timers_idle ts w i :
  i < List.length (Processes w) ->
  (slot_state w i = Some IDLE \/ In (Z.of_nat i) (map fst ts)) ->
  slot_state (fold_left (fun w (t : Z * nat) => setTimerForDeinitializationPeriod (fst t) w) ts w) i
  = Some IDLE.
Proof.
  revert w; induction ts as [|t ts IH]; intros w Hlen H; simpl in *.
  - destruct H; [assumption | contradiction].
  - apply IH; [now rewrite setTimer_length|].
    destruct H as [H | [H | H]].
    + left. now apply setTimer_keeps_idle.
    + left. rewrite H. now apply setTimer_sets_idle.
    + now right.
Qed.

Lemma fold_timers_alive ts w :
  alive (fold_left (fun w (t : Z * nat) => setTimerForDeinitializationPeriod (fst t) w) ts w) = alive w.
Proof.
  revert w; induction ts as [|t ts IH]; intros w; simpl; auto.
  rewrite IH. apply upd_proc_other_fields.
Qed.

Lemma kill_fields h w :
  Processes (kill h w) = Processes w /\ timers (kill h w) = timers w /\
  clock (kill h w) = clock w.
Proof. repeat split. Qed.

(* ------------------------------------------------------------------ *)
(** ** C3: STOP and the deinitialization timer *)

(** C3.  STOP on an in-range slot that is not IDLE makes it DEINITIALIZING
    at once and arms a timer due [DeinitPeriod] (5 s) later; when that
    period has elapsed with no other event, the timers that fall due reset
    the slot to IDLE.  The timer does not look at the OS processes: the
    live processes are the same before and after it fires. *)
Theorem stop_then_grace_period_resets_slot (w : World) (d : list (string * PyVal))
    (i : nat) (p : OsProcess) :
  dict_lookup "command" d = Some (PStr "STOP") ->
  dict_lookup "id" d = Some (PInt (Z.of_nat i)) ->
  nth_error (Processes w) i = Some p -> state p <> IDLE ->
  let w1 := snd (processMessage (JsonText (PDict d)) w) in
  slot_state w1 i = Some DEINITIALIZING /\
  In (Z.of_nat i, clock w + DeinitPeriod) (timers w1) /\
  slot_state (advance DeinitPeriod w1) i = Some IDLE /\
  alive (advance DeinitPeriod w1) = alive w1.
Proof.
  intros Hc Hid Hi Hs w1.
  assert (Hlen : i < List.length (Processes w)) by (apply nth_error_Some; congruence).
  subst w1. rewrite (processMessage_STOP_busy w d i p Hc Hid Hi Hs).
  set (w2 := mkWorld _ _ _ _ _ _ _ _).
  assert (Hw2 : Processes (snd (terminateOpenSpaceInstance (Z.of_nat i) w2)) = Processes w2 /\
                timers (snd (terminateOpenSpaceInstance (Z.of_nat i) w2)) = timers w2 /\
                clock (snd (terminateOpenSpaceInstance (Z.of_nat i) w2)) = clock w2).
  { destruct (terminate_shape (Z.of_nat i) w2) as [_ [E | [h E]]]; rewrite E;
      [repeat split | apply kill_fields]. }
  destruct Hw2 as (HP & HT & HC).
  set (w1 := snd (terminateOpenSpaceInstance (Z.of_nat i) w2)) in *.
  assert (Hlen1 : i < List.length (Processes w1))
    by (rewrite HP; simpl; now rewrite update_nth_length).
  repeat split.
  - unfold slot_state. rewrite HP. simpl.
    rewrite nth_error_update_nth_same, Hi. reflexivity.
  - rewrite HT. simpl. apply in_or_app. right. now left.
  - unfold advance, fire_due. simpl.
    apply fold_timers_idle; [exact Hlen1|]. right.
    apply in_map_iff. exists (Z.of_nat i, clock w + DeinitPeriod). split; [reflexivity|].
    apply filter_In. split.
    + rewrite HT. simpl. apply in_or_app. right. now left.
    + rewrite HC. simpl. apply Nat.leb_le. lia.
  - unfold advance, fire_due. rewrite fold_timers_alive. reflexivity.
Qed.

(* ------------------------------------------------------------------ *)
(** ** Frames: relations between the world before and after a computation *)

Section Frames.

Variable R : World -> World -> Prop.
Hypothesis R_refl : forall w, R w w.
Hypothesis R_trans : forall w1 w2 w3, R w1 w2 -> R w2 w3 -> R w1 w3.

(** [m] relates the world it starts from to the world it leaves, whether
    it returns or raises, and it never raises [json.JSONDecodeError]. *)
Definition preserves {A} (m : M A) : Prop :=
  forall w, R w (snd (m w)) /\ fst (m w) <> inl JSONDecodeError.

Lemma preserves_ret {A} (a : A) : preserves (ret a).
Proof. intros w; split; [apply R_refl | discriminate]. Qed.

Lemma preserves_raise {A} e : e <> JSONDecodeError -> preserves (A := A) (raise e).
Proof. intros He w; split; [apply R_refl | simpl; congruence]. Qed.

Lemma preserves_get : preserves get.
Proof. intros w; split; [apply R_refl | discriminate]. Qed.

Lemma preserves_modify f : (forall w, R w (f w)) -> preserves (modify f).
Proof. intros H w; split; [apply H | discriminate]. Qed.

(** A computation that returns its world unchanged. *)
Lemma preserves_pure {A} (m : M A) :
  (forall w, snd (m w) = w /\ fst (m w) <> inl JSONDecodeError) -> preserves m.
Proof. intros H w. destruct (H w) as [-> He]. split; [apply R_refl | exact He]. Qed.

Lemma preserves_bind {A B} (m : M A) (k : A -> M B) :
  preserves m -> (forall a, preserves (k a)) -> preserves (bind m k).
Proof.
  intros Hm Hk w. unfold bind. specialize (Hm w).
  destruct (m w) as [[e|a] w'] eqn:E; simpl in *.
  { destruct Hm as [Hm He]. split; [exact Hm | congruence]. }
  destruct Hm as [Hm _]. destruct (Hk a w') as [H1 H2].
  split; [eapply R_trans; [exact Hm | exact H1] | exact H2].
Qed.

Lemma preserves_bind_ret {A B} (a : A) (k : A -> M B) :
  preserves (k a) -> preserves (bind (ret a) k).
Proof. intros H w. exact (H w). Qed.

Lemma preserves_bind_assoc {A B C} (m : M A) (f : A -> M B) (k : B -> M C) :
  preserves (bind m (fun a => bind (f a) k)) -> preserves (bind (bind m f) k).
Proof.
  intros H w. specialize (H w). unfold bind in *.
  destruct (m w) as [[e|a] w']; exact H.
Qed.

End Frames.

Arguments preserves R {A} m.

(** The primitives of the handler, as frames see them. *)

Lemma proc_at_world i w : snd (proc_at i w) = w.
Proof.
  unfold proc_at. destruct (py_norm _ i); [destruct (nth_error _ _)|]; reflexivity.
Qed.




Lemma py_getitem_world v k w : snd (py_getitem v k w) = w.
Proof. unfold py_getitem. destruct v; try reflexivity. destruct (dict_lookup k d); reflexivity. Qed.

Lemma py_cmp_world v n w :
  snd (py_lt v n w) = w /\ snd (py_ge v n w) = w /\ snd (py_index v w) = w.
Proof. unfold py_lt, py_ge, py_index. destruct (as_int v); repeat split. Qed.

(** Only [json.loads] raises [json.JSONDecodeError]. *)
Lemma proc_at_no_decode i w : fst (proc_at i w) <> inl JSONDecodeError.
Proof.
  unfold proc_at. destruct (py_norm _ i); [destruct (nth_error _ _)|]; discriminate.
Qed.




Lemma py_getitem_no_decode v k w : fst (py_getitem v k w) <> inl JSONDecodeError.
Proof.
  unfold py_getitem. destruct v; try discriminate. destruct (dict_lookup k d); discriminate.
Qed.

Lemma py_cmp_no_decode v n w :
  fst (py_lt v n w) <> inl JSONDecodeError /\ fst (py_ge v n w) <> inl JSONDecodeError /\
  fst (py_index v w) <> inl JSONDecodeError.
Proof. unfold py_lt, py_ge, py_index. destruct (as_int v); repeat split; discriminate. Qed.

Lemma sendMessage_shape v w :
  sendMessage v w = (inl TypeError, w) /\ serializable v = false \/
  sendMessage v w = (inr tt, set_outbox (outbox w ++ [v])%list w) /\ serializable v = true.
Proof.
  unfold sendMessage, bind, lift, json_dumps, modify.
  destruct (serializable v); [right | left]; split; reflexivity.
Qed.









(** One step of a frame proof: the monad's structure, and the primitives
    that leave the world as it is. *)
Ltac frame_step Rrefl Rtrans :=
  cbv beta zeta;
  match goal with
  | |- preserves _ (bind (if ?b then _ else _) _) => destruct b
  | |- preserves _ (bind (ret _) _) => apply preserves_bind_ret
  | |- preserves _ (bind (bind _ _) _) => apply preserves_bind_assoc
  | |- preserves _ (bind _ _) => apply (preserves_bind _ Rtrans); [|intros ?]
  | |- preserves _ (if ?b then _ else _) => destruct b
  | |- preserves _ (ret _) => apply (preserves_ret _ Rrefl)
  | |- preserves _ get => apply (preserves_get _ Rrefl)
  | |- preserves _ (proc_at _) =>
      apply (preserves_pure _ Rrefl); intros; split; [apply proc_at_world | apply proc_at_no_decode]
  | |- preserves _ procs_len =>
      apply (preserves_pure _ Rrefl); intros; split; [reflexivity | discriminate]
  | |- preserves _ (py_getitem _ _) =>
      apply (preserves_pure _ Rrefl); intros;
      split; [apply py_getitem_world | apply py_getitem_no_decode]
  | |- preserves _ (py_lt _ _) =>
      apply (preserves_pure _ Rrefl); intros;
      split; [apply (py_cmp_world _ _ _) | apply py_cmp_no_decode]
  | |- preserves _ (py_ge _ _) =>
      apply (preserves_pure _ Rrefl); intros;
      split; [apply (py_cmp_world _ _ _) | apply py_cmp_no_decode]
  | |- preserves _ (py_index _) =>
      apply (preserves_pure _ Rrefl); intros;
      split; [apply (py_cmp_world _ 0 _) | apply (py_cmp_no_decode _ 0)]
  end.









(* ------------------------------------------------------------------ *)
(** ** C8: replies to unknown and malformed messages *)


(* ------------------------------------------------------------------ *)
(** ** C5: STOP with a negative id *)

(** Three slots; slot 2 runs the instance with process number 7. *)
Definition pool_slot2_running : World :=
  mkWorld [OsProcess_init; OsProcess_init; mkOsProcess RUNNING (Some 7) None None (Some 0)]
    [] [mkLauncher 0 2 (L_WaitExit 7)] [7] 0 8 1 [].

(** C5.  The STOP branch checks only [idToStop < len(Processes)], so a
    negative id indexes from the end of the list: with three slots,
    STOP -1 acts on slot 2 (replying "none" and moving it to DEINITIALIZING,
    arming a timer and killing its process), STOP -1 on an idle pool replies
    "not running", and STOP -4 raises [IndexError] before any reply. *)
Theorem stop_negative_id_acts_on_last_slot :
  processMessage (stop_msg (PInt (-1))) pool_slot2_running =
  (inr tt,
   mkWorld [OsProcess_init; OsProcess_init; mkOsProcess DEINITIALIZING (Some 7) None None (Some 0)]
     [((-1)%Z, 5000)] [mkLauncher 0 2 (L_WaitExit 7)] [] 0 8 1
     [stop_reply (-1) "none"]) /\
  processMessage (stop_msg (PInt (-1))) (init_world 3) =
  (inr tt, set_outbox [stop_reply (-1) "not running"] (init_world 3)) /\
  processMessage (stop_msg (PInt (-4))) (init_world 3) = (inl IndexError, init_world 3).
Proof. repeat split. Qed.

(* ------------------------------------------------------------------ *)
(** ** C6: STATUS *)

(** C6.  STATUS with an out-of-range id puts the enum member
    [State.INVALID] into the reply; [json.dumps] raises [TypeError] on it, so
    no reply is sent and the exception leaves the handler.  With three
    slots, STATUS 5 and STATUS -1 both end this way. *)
Theorem status_out_of_range_raises :
  processMessage (status_msg (PInt 5)) (init_world 3) = (inl TypeError, init_world 3) /\
  processMessage (status_msg (PInt (-1))) (init_world 3) = (inl TypeError, init_world 3).
Proof. split; reflexivity. Qed.

(* ------------------------------------------------------------------ *)
(** ** C10: termination before the launcher stored the handle *)

(** C10.  In direct launch mode, right after START the slot is INITIALIZING
    while its handle is still [None] (the launcher thread has not run
    [Popen] yet); this state is reachable, and there
    [terminateOpenSpaceInstance] evaluates [None.kill()] and raises
    [AttributeError], as does a STOP of that slot, after its reply, its
    move to DEINITIALIZING and its timer. *)
Theorem terminate_before_popen_raises :
  exists w,
    reachable 3 w /\
    slot_state w 0 = Some INITIALIZING /\
    option_map handle (nth_error (Processes w) 0) = Some None /\
    fst (terminateOpenSpaceInstance 0 w) = inl AttributeError /\
    fst (processMessage (stop_msg (PInt 0)) w) = inl AttributeError /\
    slot_state (snd (processMessage (stop_msg (PInt 0)) w)) 0 = Some DEINITIALIZING /\
    timers (snd (processMessage (stop_msg (PInt 0)) w)) = [(0%Z, 5000)].
Proof.
  exists (snd (processMessage start_msg (init_world 3))).
  split.
  - eapply run_step; [apply run_init | exact I | apply step_message].
  - repeat split.
Qed.

(* ------------------------------------------------------------------ *)
(** ** The reverse proxy: [handler] of src/secure_deployment/proxy.py *)

(* ------------------------------------------------------------------ *)
(** ** C2: how slot states change *)

(** The edges the state machine is meant to have. *)
Definition claimed_edge (a b : State) : bool :=
  match a, b with
  | IDLE, INITIALIZING | INITIALIZING, RUNNING | INITIALIZING, DEINITIALIZING
  | RUNNING, DEINITIALIZING | DEINITIALIZING, IDLE => true
  | _, _ => false
  end.

(** The edges of runs with no STOP command: a launcher sets its slot back to
    IDLE when it sees its instance exit. *)
Definition stop_free_edge (a b : State) : bool :=
  match a, b with
  | IDLE, INITIALIZING | INITIALIZING, RUNNING | RUNNING, IDLE => true
  | _, _ => false
  end.

Definition is_stop_message (m : RawMessage) : bool :=
  match m with
  | JsonText (PDict d) =>
      match dict_lookup "command" d with Some c => py_eq_str c "STOP" | None => false end
  | _ => false
  end.

Definition stop_free (lb : Label) : Prop :=
  match lb with LMessage m => is_stop_message m = false | _ => True end.

(** Handlers that leave slots, timers and launchers alone. *)
Definition R_pool (w w' : World) : Prop :=
  Processes w' = Processes w /\ timers w' = timers w /\ launchers w' = launchers w.

Lemma R_pool_refl w : R_pool w w.
Proof. repeat split. Qed.

Lemma R_pool_trans w1 w2 w3 : R_pool w1 w2 -> R_pool w2 w3 -> R_pool w1 w3.
Proof. intros [A [B C]] [D [E F]]; repeat split; congruence. Qed.

Lemma pool_send v : preserves R_pool (sendMessage v).
Proof.
  intros w. destruct (sendMessage_shape v w) as [[-> _] | [-> _]];
    (split; [repeat split | discriminate]).
Qed.

Ltac pool_step := first [frame_step R_pool_refl R_pool_trans | apply pool_send].

Lemma pool_others c json_data result :
  py_eq_str c "START" = false -> py_eq_str c "STOP" = false ->
  preserves R_pool
    (if py_eq_str c "START" then processMessage_START result
     else if py_eq_str c "STOP" then processMessage_STOP json_data result
     else if py_eq_str c "STATUS" then processMessage_STATUS json_data result
     else if py_eq_str c "SERVER_STATUS" then processMessage_SERVER_STATUS result
     else sendMessage (PDict [("error", PStr ("invalid message received: " ++ py_str c))])).
Proof.
  intros H1 H2. rewrite H1, H2.
  destruct (py_eq_str c "STATUS"); [unfold processMessage_STATUS; repeat pool_step|].
  destruct (py_eq_str c "SERVER_STATUS");
    [unfold processMessage_SERVER_STATUS; repeat pool_step | apply pool_send].
Qed.

Lemma scan_idle_cases ps :
  (exists i p, nth_error ps i = Some p /\ state p = IDLE /\ scan_idle ps 0 = Z.of_nat i) \/
  ((forall j q, nth_error ps j = Some q -> state q <> IDLE) /\ scan_idle ps 0 = (-1)%Z).
Proof.
  assert (G : forall i0, (exists i p, nth_error ps i = Some p /\ state p = IDLE /\
                            scan_idle ps i0 = (i0 + Z.of_nat i)%Z) \/
                         ((forall j q, nth_error ps j = Some q -> state q <> IDLE) /\
                          scan_idle ps i0 = (-1)%Z)).
  { induction ps as [|q ps IH]; intros i0; simpl.
    - right. split; [intros [|j] q H; discriminate | reflexivity].
    - destruct (state_eqb (state q) IDLE) eqn:E.
      + left. exists 0, q. apply state_eqb_spec in E. repeat split; auto. lia.
      + destruct (IH (i0 + 1)%Z) as [[i [p [H1 [H2 H3]]]] | [H1 H2]].
        * left. exists (S i), p. repeat split; auto. rewrite H3. lia.
        * right. split; [|exact H2]. intros [|j] r Hr; simpl in Hr.
          -- injection Hr as <-. intros Hq. rewrite Hq in E. discriminate.
          -- exact (H1 j r Hr). }
  destruct (G 0%Z) as [[i [p [H1 [H2 H3]]]] | H]; [left | right; exact H].
  exists i, p. repeat split; auto.
Qed.

(** A message that is not STOP either leaves the pool alone or is a START
    that claims an IDLE slot and queues its launcher. *)
Lemma message_effect w msg :
  is_stop_message msg = false ->
  R_pool w (snd (processMessage msg w)) \/
  exists i p, nth_error (Processes w) i = Some p /\ state p = IDLE /\
    Processes (snd (processMessage msg w)) =
      update_nth i (setState INITIALIZING) (update_nth i (setThread (next_tid w)) (Processes w)) /\
    timers (snd (processMessage msg w)) = timers w /\
    launchers (snd (processMessage msg w)) =
      (launchers w ++ [mkLauncher (next_tid w) (Z.of_nat i) L_Spawn])%list.
Proof.
  intros Hs. destruct msg as [|f|v]; [left; repeat split | left; destruct f; repeat split |].
  destruct v; try (left; repeat split; fail).
  simpl in Hs. destruct (dict_lookup "command" d) as [c|] eqn:Hd.
  - destruct (py_eq_str c "START") eqn:Hst.
    + assert (Hc : c = PStr "START")
        by (destruct c; try discriminate; apply String.eqb_eq in Hst; now subst).
      subst c. rewrite (processMessage_is_START w d Hd).
      destruct (scan_idle_cases (Processes w)) as [[i [p [Hi [Hp Hscan]]]] | [_ Hscan]].
      * right. exists i, p.
        assert (Hlen : i < List.length (Processes w)) by (apply nth_error_Some; congruence).
        rewrite try_JSONDecodeError_other;
          rewrite (processMessage_START_found w start_result i Hscan Hlen eq_refl);
          [| discriminate].
        repeat split; assumption.
      * left. rewrite try_JSONDecodeError_other;
          rewrite (processMessage_START_none w start_result Hscan eq_refl); [| discriminate].
        repeat split.
    + left. rewrite (processMessage_dict w d c Hd).
      destruct (pool_others c (PDict d) (dict_set "command" c result_template) Hst Hs w)
        as [HR Hnd].
      rewrite try_JSONDecodeError_other by exact Hnd. exact HR.
  - left. unfold processMessage, try_JSONDecodeError, bind, json_loads, ret, py_getitem.
    rewrite Hd. repeat split.
Qed.

(** The launcher threads of slot [i]. *)
Definition launchers_for (i : nat) (ls : list Launcher) : list Launcher :=
  filter (fun l => Z.eqb (l_id l) (Z.of_nat i)) ls.

(** How a slot's state and its launcher threads fit together when no STOP
    has been handled: an IDLE slot has no launcher; an INITIALIZING slot has
    at most one, before its readiness handshake returns (none once the
    handshake has failed); a RUNNING slot has one, waiting for the exit. *)
Definition slot_ok (p : OsProcess) (ls : list Launcher) : Prop :=
  match state p with
  | IDLE => ls = []
  | INITIALIZING =>
      ls = [] \/ exists l, ls = [l] /\ (l_pc l = L_Spawn \/ exists h, l_pc l = L_Handshake h)
  | RUNNING => exists l h, ls = [l] /\ l_pc l = L_WaitExit h
  | DEINITIALIZING | INVALID => False
  end.

Record stop_free_inv (w : World) : Prop := {
  sfi_timers : timers w = [];
  sfi_ids : Forall (fun l => exists k, l_id l = Z.of_nat k /\ k < List.length (Processes w))
              (launchers w);
  sfi_slots : forall i p, nth_error (Processes w) i = Some p ->
              slot_ok p (launchers_for i (launchers w))
}.

Definition stop_free_edges (w w' : World) : Prop :=
  forall i a b, slot_state w i = Some a -> slot_state w' i = Some b ->
  a = b \/ stop_free_edge a b = true.

Lemma launchers_for_app i l1 l2 :
  launchers_for i (l1 ++ l2) = (launchers_for i l1 ++ launchers_for i l2)%list.
Proof. apply filter_app. Qed.

Lemma launchers_for_all k ls :
  Forall (fun l => l_id l = Z.of_nat k) ls -> launchers_for k ls = ls.
Proof.
  induction 1 as [|l ls Hl _ IH]; simpl; auto.
  rewrite Hl, Z.eqb_refl, IH. reflexivity.
Qed.

Lemma launchers_for_none j k ls :
  j <> k -> Forall (fun l => l_id l = Z.of_nat k) ls -> launchers_for j ls = [].
Proof.
  intros Hjk. induction 1 as [|l ls Hl _ IH]; simpl; auto.
  rewrite Hl. replace (Z.of_nat k =? Z.of_nat j)%Z with false by (symmetry; apply Z.eqb_neq; lia).
  exact IH.
Qed.

Lemma slot_ok_small p ls : slot_ok p ls -> ls = [] \/ exists l, ls = [l].
Proof.
  unfold slot_ok. destruct (state p); try tauto.
  - intros [H | [l [H _]]]; eauto.
  - intros [l [h [H _]]]; eauto.
Qed.

Lemma slot_ok_single p l :
  slot_ok p [l] ->
  (state p = INITIALIZING /\ (l_pc l = L_Spawn \/ exists h, l_pc l = L_Handshake h)) \/
  (state p = RUNNING /\ exists h, l_pc l = L_WaitExit h).
Proof.
  unfold slot_ok. destruct (state p); try tauto; try discriminate.
  - intros [H | [l' [H H']]]; [discriminate|]. injection H as <-. auto.
  - intros [l' [h [H H']]]. injection H as <-. eauto.
Qed.

Lemma singleton_split {A} (a b : list A) x :
  (a ++ x :: b = [] \/ exists y, a ++ x :: b = [y])%list -> a = [] /\ b = [].
Proof.
  intros H. assert (Hl : List.length (a ++ x :: b) <= 1)
    by (destruct H as [-> | [y ->]]; simpl; lia).
  rewrite length_app in Hl. simpl in Hl.
  destruct a, b; simpl in Hl; try lia. auto.
Qed.

Lemma update_nth_id {A} n (l : list A) : update_nth n (fun x => x) l = l.
Proof. revert n; induction l; intros [|n]; simpl; f_equal; auto. Qed.

Lemma update_nth_compose {A} n (f g : A -> A) l :
  update_nth n f (update_nth n g l) = update_nth n (fun x => f (g x)) l.
Proof. revert n; induction l; intros [|n]; simpl; f_equal; auto. Qed.

Lemma upd_proc_nat k f w :
  k < List.length (Processes w) ->
  upd_proc (Z.of_nat k) f w = set_Processes (update_nth k f (Processes w)) w.
Proof. intros Hk. unfold upd_proc, proc_update. now rewrite py_norm_nat by exact Hk. Qed.

(** One slot [k] changes by [f]; its launchers [old] become [opt]. *)
Lemma stop_free_update w w' k p f pre old post opt :
  stop_free_inv w -> nth_error (Processes w) k = Some p ->
  launchers w = (pre ++ old ++ post)%list ->
  launchers_for k pre = [] -> launchers_for k post = [] ->
  Forall (fun l => l_id l = Z.of_nat k) old -> Forall (fun l => l_id l = Z.of_nat k) opt ->
  Processes w' = update_nth k f (Processes w) -> timers w' = [] ->
  launchers w' = (pre ++ opt ++ post)%list ->
  (slot_ok p old ->
   slot_ok (f p) opt /\ (state (f p) = state p \/ stop_free_edge (state p) (state (f p)) = true)) ->
  stop_free_inv w' /\ stop_free_edges w w'.
Proof.
  intros Hinv Hp Hl Hpre Hpost Hold Hopt HP HT HL Hf.
  assert (Hk : k < List.length (Processes w)) by (apply nth_error_Some; congruence).
  assert (Hok : slot_ok p old).
  { pose proof (sfi_slots w Hinv k p Hp) as H.
    rewrite Hl, !launchers_for_app, Hpre, Hpost, (launchers_for_all k old Hold) in H.
    simpl in H. now rewrite app_nil_r in H. }
  destruct (Hf Hok) as [Hok' Hedge].
  split.
  - constructor.
    + exact HT.
    + rewrite HL, HP, update_nth_length.
      pose proof (sfi_ids w Hinv) as H. rewrite Hl in H.
      apply Forall_app in H as [H1 H2]. apply Forall_app in H2 as [_ H3].
      apply Forall_app; split; [exact H1|]. apply Forall_app; split; [|exact H3].
      eapply Forall_impl; [|exact Hopt]. intros l E. exists k. split; assumption.
    + intros j q Hq. rewrite HP in Hq. rewrite HL, !launchers_for_app.
      destruct (Nat.eq_dec j k) as [->|Hjk].
      * rewrite nth_error_update_nth_same, Hp in Hq. injection Hq as <-.
        rewrite Hpre, Hpost, (launchers_for_all k opt Hopt). simpl.
        now rewrite app_nil_r.
      * rewrite nth_error_update_nth_other in Hq by congruence.
        pose proof (sfi_slots w Hinv j q Hq) as H.
        rewrite Hl, !launchers_for_app, (launchers_for_none j k old Hjk Hold) in H.
        rewrite (launchers_for_none j k opt Hjk Hopt). exact H.
  - intros i a b Ha Hb. unfold slot_state in *. rewrite HP in Hb.
    destruct (Nat.eq_dec i k) as [->|Hik].
    + rewrite nth_error_update_nth_same, Hp in Hb. rewrite Hp in Ha. simpl in *.
      injection Ha as <-. injection Hb as <-. destruct Hedge; auto.
    + rewrite nth_error_update_nth_other in Hb by congruence. left. congruence.
Qed.

(** A launcher thread [l] of the list makes a step on its own slot. *)
Lemma stop_free_launcher w w' pre l post f opt :
  stop_free_inv w -> launchers w = (pre ++ l :: post)%list ->
  (forall k, l_id l = Z.of_nat k -> k < List.length (Processes w) ->
             Processes w' = update_nth k f (Processes w)) ->
  timers w' = timers w -> launchers w' = (pre ++ opt ++ post)%list ->
  Forall (fun l' => l_id l' = l_id l) opt ->
  (forall p, slot_ok p [l] ->
   slot_ok (f p) opt /\ (state (f p) = state p \/ stop_free_edge (state p) (state (f p)) = true)) ->
  stop_free_inv w' /\ stop_free_edges w w'.
Proof.
  intros Hinv Hl HP HT HL Hopt Hf.
  assert (Hin : In l (launchers w)) by (rewrite Hl; apply in_or_app; right; left; reflexivity).
  destruct (proj1 (Forall_forall _ _) (sfi_ids w Hinv) l Hin) as [k [Hid Hk]].
  destruct (nth_error (Processes w) k) as [p|] eqn:Hp;
    [| apply nth_error_None in Hp; lia].
  pose proof (sfi_slots w Hinv k p Hp) as Hs.
  rewrite Hl, !launchers_for_app in Hs. simpl in Hs. rewrite Hid, Z.eqb_refl in Hs.
  destruct (singleton_split _ _ _ (slot_ok_small _ _ Hs)) as [Hpre Hpost].
  apply (stop_free_update w w' k p f pre [l] post opt);
    [exact Hinv | exact Hp | exact Hl | exact Hpre | exact Hpost
    | constructor; [exact Hid | constructor] | rewrite Hid in Hopt; exact Hopt
    | apply HP; assumption | rewrite HT; apply (sfi_timers w Hinv) | exact HL | apply Hf].
Qed.

Lemma stop_free_pool w w' :
  stop_free_inv w -> R_pool w w' -> stop_free_inv w' /\ stop_free_edges w w'.
Proof.
  intros [HT HI HS] [HP [HT' HL]]. split.
  - constructor; rewrite ?HP, ?HT', ?HL; assumption.
  - intros i a b Ha Hb. unfold slot_state in *. rewrite HP in Hb. left. congruence.
Qed.

Lemma stop_free_step w lb w' :
  stop_free_inv w -> stop_free lb -> lstep lb w w' ->
  stop_free_inv w' /\ stop_free_edges w w'.
Proof.
  intros Hinv Hok Hstep. destruct Hstep as
    [w msg | w pre l post E Hpc | w pre l post h E Hpc | w pre l post h E Hpc
    | w pre l post h E Hpc Hdead | w h Hh | w | w pre id due post E Hdue].
  - destruct (message_effect w msg Hok) as [HR | [i [p [Hi [Hp [HP [HT HL]]]]]]].
    + exact (stop_free_pool _ _ Hinv HR).
    + apply (stop_free_update w _ i p (fun x => setState INITIALIZING (setThread (next_tid w) x))
               (launchers w) [] [] [mkLauncher (next_tid w) (Z.of_nat i) L_Spawn]);
        [exact Hinv | exact Hi | simpl; symmetry; apply app_nil_r | | reflexivity
        | constructor | constructor; [reflexivity | constructor]
        | rewrite HP; apply update_nth_compose | rewrite HT; apply (sfi_timers w Hinv)
        | rewrite HL; reflexivity | ].
      * pose proof (sfi_slots w Hinv i p Hi) as H. unfold slot_ok in H. now rewrite Hp in H.
      * intros _. simpl. rewrite Hp. split; [|right; reflexivity].
        unfold slot_ok; simpl. right. eexists. split; [reflexivity | left; reflexivity].
  - apply (stop_free_launcher w _ pre l post (setProcessHandle (next_pid w))
             [mkLauncher (l_tid l) (l_id l) (L_Handshake (next_pid w))]); 
      [exact Hinv | exact E | | exact (proj1 (upd_proc_other_fields _ _ _)) | reflexivity | repeat constructor | ].
    + intros k Hid Hk. unfold launcher_popen, put_launchers. rewrite Hid.
      rewrite upd_proc_nat by exact Hk. reflexivity.
    + intros p Hs. destruct (slot_ok_single p l Hs) as [[Hst _] | [_ [h' Hh']]];
        [| congruence].
      unfold slot_ok. simpl. rewrite Hst. split; [|left; reflexivity].
      right. eexists. split; [reflexivity | right; eexists; reflexivity].
  - apply (stop_free_launcher w _ pre l post (setState RUNNING)
             [mkLauncher (l_tid l) (l_id l) (L_WaitExit h)]); 
      [exact Hinv | exact E | | exact (proj1 (upd_proc_other_fields _ _ _)) | reflexivity | repeat constructor | ].
    + intros k Hid Hk. unfold launcher_ready, put_launchers. rewrite Hid.
      rewrite upd_proc_nat by exact Hk. reflexivity.
    + intros p Hs. destruct (slot_ok_single p l Hs) as [[Hst _] | [_ [h' Hh']]];
        [| congruence].
      unfold slot_ok. simpl. rewrite Hst. split; [|right; reflexivity].
      eexists _, h. split; reflexivity.
  - apply (stop_free_launcher w _ pre l post (fun x => x) []);
      [exact Hinv | exact E | | reflexivity | reflexivity | constructor | ].
    + intros k _ _. symmetry. apply update_nth_id.
    + intros p Hs. destruct (slot_ok_single p l Hs) as [[Hst _] | [_ [h' Hh']]];
        [| congruence].
      unfold slot_ok. rewrite Hst. auto.
  - apply (stop_free_launcher w _ pre l post (setState IDLE) []); 
      [exact Hinv | exact E | | exact (proj1 (upd_proc_other_fields _ _ _)) | reflexivity | repeat constructor | ].
    + intros k Hid Hk. unfold launcher_exited, put_launchers. rewrite Hid.
      rewrite upd_proc_nat by exact Hk. reflexivity.
    + intros p Hs. destruct (slot_ok_single p l Hs) as [[_ [Hs' | [h' Hh']]] | [Hst _]];
        try congruence.
      unfold slot_ok. simpl. rewrite Hst. auto.
  - apply stop_free_pool; [exact Hinv | repeat split].
  - apply stop_free_pool; [exact Hinv | repeat split].
  - rewrite (sfi_timers w Hinv) in E. destruct pre; discriminate.
Qed.

Lemma stop_free_inv_init capacity : stop_free_inv (init_world capacity).
Proof.
  constructor; simpl; auto.
  intros i p Hp. apply nth_error_In, repeat_spec in Hp. subst p. reflexivity.
Qed.

Lemma stop_free_run capacity w : run stop_free capacity w -> stop_free_inv w.
Proof.
  induction 1 as [|w lb w' _ IH Hok Hstep].
  - apply stop_free_inv_init.
  - exact (proj1 (stop_free_step w lb w' IH Hok Hstep)).
Qed.

(** What a STOP does to the slots: a slot that is not IDLE may become
    DEINITIALIZING, and nothing else changes state. *)
Definition R_deinit (w w' : World) : Prop :=
  List.length (Processes w') = List.length (Processes w) /\
  forall i a b, slot_state w i = Some a -> slot_state w' i = Some b ->
  a = b \/ (a <> IDLE /\ b = DEINITIALIZING).

Lemma R_deinit_same w w' : Processes w' = Processes w -> R_deinit w w'.
Proof.
  intros E. unfold R_deinit, slot_state. rewrite E. split; [reflexivity|].
  intros i a b Ha Hb. left. congruence.
Qed.

Lemma R_deinit_refl w : R_deinit w w.
Proof. apply R_deinit_same. reflexivity. Qed.

Lemma R_deinit_trans w1 w2 w3 : R_deinit w1 w2 -> R_deinit w2 w3 -> R_deinit w1 w3.
Proof.
  intros [L12 H12] [L23 H23]. split; [congruence|].
  intros i a c Ha Hc.
  assert (Hi : i < List.length (Processes w2)).
  { rewrite L12. unfold slot_state in Ha. apply nth_error_Some.
    destruct (nth_error (Processes w1) i); discriminate. }
  destruct (nth_error (Processes w2) i) as [q|] eqn:Hq;
    [| apply nth_error_None in Hq; lia].
  assert (Hb : slot_state w2 i = Some (state q)) by (unfold slot_state; now rewrite Hq).
  destruct (H12 i a _ Ha Hb) as [E | [Ha' Hb']]; [rewrite E; exact (H23 i _ c Hb Hc)|].
  right. split; [exact Ha'|].
  destruct (H23 i _ c Hb Hc) as [<- | [_ ->]]; [exact Hb' | reflexivity].
Qed.

Lemma bind_inr {A B} (m : M A) (k : A -> M B) w a w' :
  m w = (inr a, w') -> bind m k w = k a w'.
Proof. intros E. unfold bind. now rewrite E. Qed.

Lemma deinit_send v : preserves R_deinit (sendMessage v).
Proof.
  intros w. destruct (sendMessage_shape v w) as [[-> _] | [-> _]];
    (split; [apply R_deinit_same; reflexivity | discriminate]).
Qed.

Lemma deinit_timer i : preserves R_deinit (timer_start i).
Proof. apply preserves_modify. intros w. apply R_deinit_same. reflexivity. Qed.

Lemma deinit_terminate i : preserves R_deinit (terminateOpenSpaceInstance i).
Proof.
  intros w. destruct (terminate_shape i w) as [Hnd [E | [h E]]]; rewrite E;
    (split; [apply R_deinit_same; reflexivity | exact Hnd]).
Qed.

(** The second state check of the STOP branch guards the update. *)
Lemma deinit_guarded i :
  preserves R_deinit
    (p' <- proc_at i ;;
     if negb (state_eqb (state p') IDLE) then
       proc_update i (setState DEINITIALIZING) ;;;
       timer_start i ;;;
       terminateOpenSpaceInstance i
     else ret tt).
Proof.
  intros w. destruct (py_norm (List.length (Processes w)) i) as [n|] eqn:Hn.
  2: { unfold bind, proc_at. rewrite Hn. split; [apply R_deinit_refl | discriminate]. }
  destruct (nth_error (Processes w) n) as [p|] eqn:Hp.
  2: { unfold bind, proc_at. rewrite Hn, Hp. split; [apply R_deinit_refl | discriminate]. }
  assert (E : proc_at i w = (inr p, w)) by (unfold proc_at; now rewrite Hn, Hp).
  rewrite (bind_inr _ _ _ _ _ E).
  destruct (state_eqb (state p) IDLE) eqn:Hs; cbn [negb].
  - split; [apply R_deinit_refl | discriminate].
  - set (w1 := set_Processes (update_nth n (setState DEINITIALIZING) (Processes w)) w).
    assert (E1 : proc_update i (setState DEINITIALIZING) w = (inr tt, w1))
      by (unfold proc_update; now rewrite Hn).
    rewrite (bind_inr _ _ _ _ _ E1).
    assert (Hk : preserves R_deinit (timer_start i ;;; terminateOpenSpaceInstance i))
      by (apply (preserves_bind _ R_deinit_trans);
          [apply deinit_timer | intros _; apply deinit_terminate]).
    destruct (Hk w1) as [HR Hnd]. split; [|exact Hnd].
    eapply R_deinit_trans; [|exact HR].
    split; [apply update_nth_length|].
    intros j a b Ha Hb. unfold slot_state in *. simpl in Hb.
    destruct (Nat.eq_dec j n) as [->|Hjn].
    + rewrite nth_error_update_nth_same, Hp in Hb. rewrite Hp in Ha. simpl in *.
      injection Ha as <-. injection Hb as <-. right. split; [|reflexivity].
      intros H. rewrite H in Hs. discriminate.
    + rewrite nth_error_update_nth_other in Hb by congruence. left. congruence.
Qed.

Ltac deinit_step :=
  cbv beta zeta;
  first [ apply deinit_guarded | frame_step R_deinit_refl R_deinit_trans | apply deinit_send ].

Lemma deinit_STOP json_data result : preserves R_deinit (processMessage_STOP json_data result).
Proof. unfold processMessage_STOP. repeat deinit_step. Qed.

(** What one handled message does to the slots. *)
Definition handler_edge (a b : State) : Prop :=
  a = b \/ (a = IDLE /\ b = INITIALIZING) \/ (a <> IDLE /\ b = DEINITIALIZING).

Lemma message_edges w msg i a b :
  slot_state w i = Some a -> slot_state (snd (processMessage msg w)) i = Some b ->
  handler_edge a b.
Proof.
  intros Ha Hb. unfold handler_edge.
  destruct (is_stop_message msg) eqn:Hstop.
  - destruct msg as [| |[| | | | |d|]]; try discriminate. simpl in Hstop.
    destruct (dict_lookup "command" d) as [c|] eqn:Hd; [|discriminate].
    assert (Hc : c = PStr "STOP")
      by (destruct c; try discriminate; apply String.eqb_eq in Hstop; now subst).
    subst c. rewrite (processMessage_is_STOP w d Hd) in Hb.
    destruct (deinit_STOP (PDict d)
                [("command", PStr "STOP"); ("error", PStr "none"); ("id", PInt 0)] w)
      as [[_ HR] Hnd].
    rewrite try_JSONDecodeError_other in Hb by exact Hnd.
    destruct (HR i a b Ha Hb) as [H | H]; auto.
  - destruct (message_effect w msg Hstop) as [[HP _] | [k [p [Hk [Hp [HP _]]]]]].
    + left. unfold slot_state in *. rewrite HP in Hb. congruence.
    + unfold slot_state in *. rewrite HP, update_nth_compose in Hb.
      destruct (Nat.eq_dec i k) as [->|Hik].
      * rewrite nth_error_update_nth_same, Hk in Hb. rewrite Hk in Ha. simpl in *.
        injection Ha as <-. injection Hb as <-. right; left. auto.
      * rewrite nth_error_update_nth_other in Hb by congruence. left. congruence.
Qed.

(** START, then the launcher spawns instance 0, the handshake returns, and
    the instance quits on its own (from the OpenSpace GUI, say). *)
Definition trace_running : World :=
  let w0 := snd (processMessage start_msg (init_world 3)) in
  let w1 := launcher_popen [] (mkLauncher 0 0 L_Spawn) [] w0 in
  let w2 := launcher_ready [] (mkLauncher 0 0 (L_Handshake 0)) 0 [] w1 in
  kill 0 w2.

(** C2 (counterexample).  In a reachable world slot 0 is RUNNING and its
    instance has exited; the launcher's poll loop then sets the slot to IDLE
    ([OpenSpace ID 0 RUNNING -> IDLE]).  RUNNING to IDLE is not one of the
    edges the claim allows. *)
Lemma launcher_exit_moves_running_to_idle :
  reachable 3 trace_running /\
  lstep LExited trace_running
    (launcher_exited [] (mkLauncher 0 0 (L_WaitExit 0)) [] trace_running) /\
  slot_state trace_running 0 = Some RUNNING /\
  slot_state (launcher_exited [] (mkLauncher 0 0 (L_WaitExit 0)) [] trace_running) 0 = Some IDLE /\
  claimed_edge RUNNING IDLE = false.
Proof.
  split; [|split; [|repeat split]].
  - unfold reachable, trace_running. cbv zeta.
    eapply run_step; [| exact I | apply step_process_exits; vm_compute; left; reflexivity].
    eapply run_step; [| exact I | apply step_ready; reflexivity].
    eapply run_step; [| exact I | apply step_popen; reflexivity].
    eapply run_step; [apply run_init | exact I | apply step_message].
  - apply step_exited with (h := 0); [reflexivity | reflexivity | vm_compute; tauto].
Qed.

(** C2 (amended).  Handling one message changes a slot's state only from
    IDLE to INITIALIZING (START) or from a state other than IDLE to
    DEINITIALIZING (STOP).  In every run with no STOP command, each step
    (a message, a launcher spawning its instance, its handshake returning or
    failing, the launcher seeing the exit, an instance exiting, time
    passing) changes a slot's state only along IDLE to INITIALIZING,
    INITIALIZING to RUNNING, and RUNNING to IDLE, the last when the launcher
    sees its instance exit. *)
Theorem slot_state_edges_as_coded :
  (forall w msg i a b,
     slot_state w i = Some a -> slot_state (snd (processMessage msg w)) i = Some b ->
     a = b \/ (a = IDLE /\ b = INITIALIZING) \/ (a <> IDLE /\ b = DEINITIALIZING)) /\
  (forall capacity w lb w' i a b,
     run stop_free capacity w -> stop_free lb -> lstep lb w w' ->
     slot_state w i = Some a -> slot_state w' i = Some b ->
     a = b \/ stop_free_edge a b = true).
Proof.
  split.
  - exact message_edges.
  - intros capacity w lb w' i a b Hrun Hok Hstep.
    exact (proj2 (stop_free_step w lb w' (stop_free_run capacity w Hrun) Hok Hstep) i a b).
Qed.

(* ------------------------------------------------------------------ *)
(** ** C8 as the code has it *)


(* ------------------------------------------------------------------ *)
(** ** The theorems at concrete inputs *)

Lemma start_claims_lowest_idle_slot_witness :
  fst (processMessage start_msg (init_world 3)) = inr tt /\
  slot_state (snd (processMessage start_msg (init_world 3))) 0 = Some INITIALIZING /\
  outbox (snd (processMessage start_msg (init_world 3))) =
    [PDict [("command", PStr "START"); ("error", PStr "none"); ("id", PInt 0)]].
Proof.
  pose proof (proj1 (start_claims_lowest_idle_slot (init_world 3) [("command", PStr "START")]
                       eq_refl) 0 OsProcess_init eq_refl eq_refl) as H.
  assert (Hb : forall j q, j < 0 -> nth_error (Processes (init_world 3)) j = Some q ->
                           state q <> IDLE) by (intros; lia).
  specialize (H Hb). cbv zeta in H. destruct H as [H1 [H2 [_ H4]]].
  split; [exact H1 | split; [exact H2 | exact H4]].
Defined.

Lemma slot_state_edges_as_coded_witness :
  slot_state (init_world 3) 0 = Some IDLE /\
  slot_state (snd (processMessage start_msg (init_world 3))) 0 = Some INITIALIZING /\
  (IDLE = INITIALIZING \/ (IDLE = IDLE /\ INITIALIZING = INITIALIZING) \/
   (IDLE <> IDLE /\ INITIALIZING = DEINITIALIZING)) /\
  (IDLE = INITIALIZING \/ stop_free_edge IDLE INITIALIZING = true).
Proof.
  split; [reflexivity|]. split; [reflexivity|]. split.
  - exact (proj1 slot_state_edges_as_coded (init_world 3) start_msg 0 IDLE INITIALIZING
             eq_refl eq_refl).
  - exact (proj2 slot_state_edges_as_coded 3 (init_world 3) (LMessage start_msg)
             (snd (processMessage start_msg (init_world 3))) 0 IDLE INITIALIZING
             (run_init _ 3) eq_refl (step_message _ _) eq_refl eq_refl).
Defined.

Lemma stop_then_grace_period_resets_slot_witness :
  let w1 := snd (processMessage (stop_msg (PInt 2)) pool_slot2_running) in
  slot_state w1 2 = Some DEINITIALIZING /\
  In (2%Z, clock pool_slot2_running + DeinitPeriod) (timers w1) /\
  slot_state (advance DeinitPeriod w1) 2 = Some IDLE /\
  alive (advance DeinitPeriod w1) = alive w1.
Proof.
  eapply (stop_then_grace_period_resets_slot pool_slot2_running
            [("command", PStr "STOP"); ("id", PInt 2)] 2);
    [reflexivity | reflexivity | reflexivity | simpl; discriminate].
Defined.

Lemma server_status_counts_busy_slots_witness :
  processMessage server_status_msg pool_slot2_running =
  (inr tt, set_outbox
     [PDict [("command", PStr "SERVER_STATUS"); ("error", PStr "none"); ("id", PInt 0);
             ("running", PInt 1); ("total", PInt 3)]] pool_slot2_running).
Proof.
  exact (server_status_counts_busy_slots pool_slot2_running
           [("command", PStr "SERVER_STATUS")] eq_refl).
Defined.

Lemma stop_on_idle_slot_is_not_running_witness :
  processMessage (stop_msg (PInt 0)) (init_world 3) =
  (inr tt, set_outbox
     [PDict [("command", PStr "STOP"); ("error", PStr "not running"); ("id", PInt 0)]]
     (init_world 3)).
Proof.
  exact (stop_on_idle_slot_is_not_running (init_world 3)
           [("command", PStr "STOP"); ("id", PInt 0)] 0 OsProcess_init
           eq_refl eq_refl eq_refl eq_refl).
Defined.


(* ------------------------------------------------------------------ *)
(** ** STATUS and STOP on the remaining inputs *)

Lemma processMessage_is_STATUS w d :
  dict_lookup "command" d = Some (PStr "STATUS") ->
  processMessage (JsonText (PDict d)) w =
  try_JSONDecodeError
    (processMessage_STATUS (PDict d)
       [("command", PStr "STATUS"); ("error", PStr "none"); ("id", PInt 0)])
    (sendMessage decode_error_reply) w.
Proof. intros H. rewrite (processMessage_dict w d _ H). reflexivity. Qed.

(** STATUS with an id [0 <= i < len(Processes)] replies with the slot's
    state name and changes nothing else.  The handler never writes the
    requested id into the reply: its [id] field is the template's 0. *)
Theorem status_in_range_reply (w : World) (d : list (string * PyVal)) (i : nat) (p : OsProcess) :
  dict_lookup "command" d = Some (PStr "STATUS") ->
  dict_lookup "id" d = Some (PInt (Z.of_nat i)) ->
  nth_error (Processes w) i = Some p ->
  processMessage (JsonText (PDict d)) w =
  (inr tt, set_outbox (outbox w ++
     [PDict [("command", PStr "STATUS"); ("error", PStr "none"); ("id", PInt 0);
             ("status", PStr (currentStateString p))]])%list w).
Proof.
  intros Hc Hid Hi.
  assert (Hlen : i < List.length (Processes w)) by (apply nth_error_Some; congruence).
  rewrite (processMessage_is_STATUS w d Hc).
  unfold try_JSONDecodeError, processMessage_STATUS.
  cbv beta iota delta [bind ret py_getitem procs_len py_lt py_ge py_index as_int].
  rewrite Hid.
  replace (Z.of_nat i <? Z.of_nat (List.length (Processes w)))%Z with true
    by (symmetry; apply Z.ltb_lt; lia).
  replace (0 <=? Z.of_nat i)%Z with true by (symmetry; apply Z.leb_le; lia).
  rewrite (proc_at_nat w i p Hi).
  unfold sendMessage, lift, json_dumps, modify. simpl. reflexivity.
Qed.

(** STOP with an int id at or above [len(Processes)] replies
    [{command: STOP, error: "invalid id", id}] and changes nothing else. *)
Theorem stop_id_too_large_reply (w : World) (d : list (string * PyVal)) (z : Z) :
  dict_lookup "command" d = Some (PStr "STOP") ->
  dict_lookup "id" d = Some (PInt z) ->
  (Z.of_nat (List.length (Processes w)) <= z)%Z ->
  processMessage (JsonText (PDict d)) w =
  (inr tt, set_outbox (outbox w ++ [stop_reply z "invalid id"])%list w).
Proof.
  intros Hc Hid Hz.
  rewrite (processMessage_is_STOP w d Hc).
  unfold try_JSONDecodeError, processMessage_STOP.
  cbv beta iota delta [bind ret py_getitem procs_len py_lt py_index as_int].
  rewrite Hid.
  replace (z <? Z.of_nat (List.length (Processes w)))%Z with false
    by (symmetry; apply Z.ltb_ge; lia).
  unfold sendMessage, lift, json_dumps, modify. simpl. reflexivity.
Qed.

(** The failing paths of STOP and STATUS send no reply and leave the world
    as it was: a missing [id] raises [KeyError], an id that is [null], a
    string, a list or an object raises [TypeError] when it is compared with
    [len(Processes)] (a float id is not one of these: it compares as a
    number), STATUS with an
    int id outside [0 <= id < len(Processes)] raises [TypeError] (from
    [json.dumps]), and STOP with an id below [-len(Processes)] raises
    [IndexError]. *)
Theorem stop_status_failures_change_nothing (w : World) (d : list (string * PyVal)) (c : string) :
  dict_lookup "command" d = Some (PStr c) -> (c = "STOP" \/ c = "STATUS") ->
  (dict_lookup "id" d = None ->
     processMessage (JsonText (PDict d)) w = (inl KeyError, w)) /\
  (forall v, dict_lookup "id" d = Some v ->
     (v = PNone \/ (exists s, v = PStr s) \/ (exists l, v = PList l) \/ (exists e, v = PDict e)) ->
     processMessage (JsonText (PDict d)) w = (inl TypeError, w)) /\
  (c = "STATUS" -> forall z, dict_lookup "id" d = Some (PInt z) ->
     (z < 0 \/ Z.of_nat (List.length (Processes w)) <= z)%Z ->
     processMessage (JsonText (PDict d)) w = (inl TypeError, w)) /\
  (c = "STOP" -> forall z, dict_lookup "id" d = Some (PInt z) ->
     (z < - Z.of_nat (List.length (Processes w)))%Z ->
     processMessage (JsonText (PDict d)) w = (inl IndexError, w)).
Proof.
  intros Hc Hcmd.
  split; [|split; [|split]].
  - intros Hid. destruct Hcmd as [-> | ->].
    + rewrite (processMessage_is_STOP w d Hc).
      unfold try_JSONDecodeError, processMessage_STOP, bind, py_getitem.
      now rewrite Hid.
    + rewrite (processMessage_is_STATUS w d Hc).
      unfold try_JSONDecodeError, processMessage_STATUS, bind, py_getitem.
      now rewrite Hid.
  - intros v Hid Hk.
    assert (Hv : as_int v = None)
      by (destruct Hk as [-> | [[s ->] | [[l ->] | [e ->]]]]; reflexivity).
    destruct Hcmd as [-> | ->].
    + rewrite (processMessage_is_STOP w d Hc).
      unfold try_JSONDecodeError, processMessage_STOP.
      cbv beta iota delta [bind ret py_getitem procs_len py_lt].
      rewrite Hid, Hv. reflexivity.
    + rewrite (processMessage_is_STATUS w d Hc).
      unfold try_JSONDecodeError, processMessage_STATUS.
      cbv beta iota delta [bind ret py_getitem procs_len py_lt].
      rewrite Hid, Hv. reflexivity.
  - intros -> z Hid Hz.
    rewrite (processMessage_is_STATUS w d Hc).
    unfold try_JSONDecodeError, processMessage_STATUS.
    cbv beta iota delta [bind ret py_getitem procs_len py_lt py_ge as_int].
    rewrite Hid.
    destruct (z <? Z.of_nat (List.length (Processes w)))%Z eqn:E1.
    + replace (0 <=? z)%Z with false by (symmetry; apply Z.leb_gt; apply Z.ltb_lt in E1; lia).
      reflexivity.
    + reflexivity.
  - intros -> z Hid Hz.
    rewrite (processMessage_is_STOP w d Hc).
    unfold try_JSONDecodeError, processMessage_STOP.
    cbv beta iota delta [bind ret py_getitem procs_len py_lt py_index as_int].
    rewrite Hid.
    replace (z <? Z.of_nat (List.length (Processes w)))%Z with true
      by (symmetry; apply Z.ltb_lt; lia).
    unfold proc_at, py_norm.
    replace ((0 <=? z)%Z && (z <? Z.of_nat (List.length (Processes w)))%Z) with false
      by (symmetry; apply andb_false_iff; left; apply Z.leb_gt; lia).
    replace ((- Z.of_nat (List.length (Processes w)) <=? z)%Z && (z <? 0)%Z) with false
      by (symmetry; apply andb_false_iff; left; apply Z.leb_gt; lia).
    reflexivity.
Qed.

(* ------------------------------------------------------------------ *)
(** ** Commands other than START and STOP *)

(** The world changes only by replies appended to the outbox. *)
Definition R_out (w w' : World) : Prop :=
  exists l, w' = set_outbox (outbox w ++ l)%list w.

Lemma R_out_refl w : R_out w w.
Proof. exists []. destruct w; simpl. now rewrite app_nil_r. Qed.

Lemma R_out_trans w1 w2 w3 : R_out w1 w2 -> R_out w2 w3 -> R_out w1 w3.
Proof.
  intros [l1 ->] [l2 ->]. exists (l1 ++ l2)%list. destruct w1; simpl.
  now rewrite app_assoc.
Qed.

Lemma out_send v : preserves R_out (sendMessage v).
Proof.
  intros w. destruct (sendMessage_shape v w) as [[-> _] | [-> _]]; simpl.
  - split; [apply R_out_refl | discriminate].
  - split; [exists [v]; reflexivity | discriminate].
Qed.

Ltac out_step := first [frame_step R_out_refl R_out_trans | apply out_send].

Lemma out_others c json_data result :
  py_eq_str c "START" = false -> py_eq_str c "STOP" = false ->
  preserves R_out
    (if py_eq_str c "START" then processMessage_START result
     else if py_eq_str c "STOP" then processMessage_STOP json_data result
     else if py_eq_str c "STATUS" then processMessage_STATUS json_data result
     else if py_eq_str c "SERVER_STATUS" then processMessage_SERVER_STATUS result
     else sendMessage (PDict [("error", PStr ("invalid message received: " ++ py_str c))])).
Proof.
  intros H1 H2. rewrite H1, H2.
  destruct (py_eq_str c "STATUS"); [unfold processMessage_STATUS; repeat out_step|].
  destruct (py_eq_str c "SERVER_STATUS");
    [unfold processMessage_SERVER_STATUS; repeat out_step | apply out_send].
Qed.

Lemma py_eq_str_other c s : c <> PStr s -> py_eq_str c s = false.
Proof.
  intros H. destruct c; try reflexivity. simpl.
  apply String.eqb_neq. congruence.
Qed.

(** Any message that is not a START or STOP command (text that is not
    JSON, JSON that is not an object, an object without [command], STATUS,
    SERVER_STATUS, an unknown command) leaves the slots, timers, launcher
    threads, live processes, clock and counters as they were: at most the
    outbox grows, whether the handler returns or raises. *)
Theorem non_start_stop_touch_only_outbox (msg : RawMessage) (w : World) :
  (forall d c, msg = JsonText (PDict d) -> dict_lookup "command" d = Some c ->
     c <> PStr "START" /\ c <> PStr "STOP") ->
  exists l, snd (processMessage msg w) = set_outbox (outbox w ++ l)%list w.
Proof.
  intros H. destruct msg as [|f|v];
    [exists [decode_error_reply]; reflexivity | destruct f; apply R_out_refl |].
  destruct v; try (apply R_out_refl).
  destruct (dict_lookup "command" d) as [c|] eqn:Hd.
  - destruct (H d c eq_refl Hd) as [H1 H2].
    rewrite (processMessage_dict w d c Hd).
    destruct (out_others c (PDict d) (dict_set "command" c result_template)
                (py_eq_str_other c _ H1) (py_eq_str_other c _ H2) w) as [HR Hnd].
    rewrite try_JSONDecodeError_other by exact Hnd. exact HR.
  - unfold processMessage, try_JSONDecodeError, bind, json_loads, ret, py_getitem.
    rewrite Hd. apply R_out_refl.
Qed.

(* ------------------------------------------------------------------ *)
(** ** The shutdown loop of [mainAsync] *)

(** After the 'q' key, in direct launch mode:
    [for i in range(0, len(Processes)): terminateOpenSpaceInstance(i)];
    the range is computed once, and an exception leaves the loop. *)
Fixpoint shutdown_from (i k : nat) : M unit :=
  match k with
  | O => ret tt
  | S k' => terminateOpenSpaceInstance (Z.of_nat i) ;;; shutdown_from (S i) k'
  end.

Definition shutdown_instances : M unit :=
  n <- procs_len ;; shutdown_from 0 n.

(** The states in which [terminateOpenSpaceInstance] kills the handle *)
Definition live_state (p : OsProcess) : bool :=
  state_eqb (state p) INITIALIZING || state_eqb (state p) RUNNING ||
  state_eqb (state p) DEINITIALIZING.

(** The handles of the slots [ps] that the loop kills *)
Definition handles_of (ps : list OsProcess) : list nat :=
  flat_map (fun p => if live_state p then match handle p with Some h => [h] | None => [] end
                     else []) ps.

Definition kill_all (hs : list nat) (w : World) : World :=
  set_alive (filter (fun x => negb (existsb (Nat.eqb x) hs)) (alive w)) w.

Lemma kill_all_nil w : kill_all [] w = w.
Proof.
  destruct w as [ps ts ls a c np nt o]. unfold kill_all, set_alive. simpl.
  f_equal. induction a as [|x a IH]; simpl; [reflexivity | f_equal; exact IH].
Qed.

Lemma kill_all_kill hs h w : kill_all hs (kill h w) = kill_all (h :: hs) w.
Proof.
  destruct w as [ps ts ls a c np nt o]. unfold kill_all, kill, set_alive. simpl. f_equal.
  induction a as [|x a IH]; simpl; [reflexivity|].
  destruct (Nat.eqb x h); simpl; [exact IH|].
  destruct (existsb (Nat.eqb x) hs); simpl; congruence.
Qed.

Lemma Processes_kill_all hs w : Processes (kill_all hs w) = Processes w.
Proof. reflexivity. Qed.

Lemma nth_error_skipn_cons {A} (l : list A) i x sfx :
  skipn i l = x :: sfx -> nth_error l i = Some x /\ skipn (S i) l = sfx.
Proof.
  revert l; induction i as [|i IH]; intros [|y l] H; simpl in *; try discriminate.
  - injection H as -> ->. split; reflexivity.
  - exact (IH l H).
Qed.

Lemma shutdown_from_all sfx i w :
  skipn i (Processes w) = sfx ->
  (forall p, In p sfx -> live_state p = true -> handle p <> None) ->
  shutdown_from i (List.length sfx) w = (inr tt, kill_all (handles_of sfx) w).
Proof.
  revert i w; induction sfx as [|p sfx IH]; intros i w Hs Hok.
  - simpl. now rewrite kill_all_nil.
  - destruct (nth_error_skipn_cons _ _ _ _ Hs) as [Hi Hs'].
    cbn [List.length shutdown_from]. unfold bind at 1, terminateOpenSpaceInstance.
    unfold bind at 1. rewrite (proc_at_nat w i p Hi).
    change (state_eqb (state p) INITIALIZING || state_eqb (state p) RUNNING ||
            state_eqb (state p) DEINITIALIZING) with (live_state p).
    cbn [handles_of flat_map].
    destruct (live_state p) eqn:Hl.
    + destruct (handle p) as [h|] eqn:Hh;
        [|exfalso; exact (Hok p (or_introl eq_refl) Hl Hh)].
      unfold modify. cbn [app].
      rewrite (IH (S i) (kill h w)); [now rewrite kill_all_kill | exact Hs' |].
      intros q Hq. apply Hok. now right.
    + unfold ret. cbn [app].
      apply IH; [exact Hs' |]. intros q Hq. apply Hok. now right.
Qed.

Lemma shutdown_from_fail pre p post i w :
  skipn i (Processes w) = (pre ++ p :: post)%list ->
  (forall q, In q pre -> live_state q = true -> handle q <> None) ->
  live_state p = true -> handle p = None ->
  shutdown_from i (List.length (pre ++ p :: post)) w =
  (inl AttributeError, kill_all (handles_of pre) w).
Proof.
  revert i w; induction pre as [|q pre IH]; intros i w Hs Hok Hl Hh.
  - simpl in Hs. destruct (nth_error_skipn_cons _ _ _ _ Hs) as [Hi _].
    cbn [List.length app shutdown_from]. unfold bind at 1, terminateOpenSpaceInstance.
    unfold bind at 1. rewrite (proc_at_nat w i p Hi).
    change (state_eqb (state p) INITIALIZING || state_eqb (state p) RUNNING ||
            state_eqb (state p) DEINITIALIZING) with (live_state p).
    rewrite Hl, Hh. simpl. now rewrite kill_all_nil.
  - simpl in Hs. destruct (nth_error_skipn_cons _ _ _ _ Hs) as [Hi Hs'].
    cbn [List.length app shutdown_from]. unfold bind at 1, terminateOpenSpaceInstance.
    unfold bind at 1. rewrite (proc_at_nat w i q Hi).
    change (state_eqb (state q) INITIALIZING || state_eqb (state q) RUNNING ||
            state_eqb (state q) DEINITIALIZING) with (live_state q).
    cbn [handles_of flat_map].
    destruct (live_state q) eqn:Hlq.
    + destruct (handle q) as [h|] eqn:Hhq;
        [|exfalso; exact (Hok q (or_introl eq_refl) Hlq Hhq)].
      unfold modify. cbn [app].
      rewrite (IH (S i) (kill h w)); [now rewrite kill_all_kill | exact Hs' | | exact Hl | exact Hh].
      intros r Hr. apply Hok. now right.
    + unfold ret. cbn [app].
      apply IH; [exact Hs' | | exact Hl | exact Hh]. intros r Hr. apply Hok. now right.
Qed.

(** The shutdown loop kills, slot by slot, the instance of every slot that
    is INITIALIZING, RUNNING or DEINITIALIZING, and changes nothing but the
    set of live processes.  The first such slot whose handle is still
    [None] (its launcher has not run [Popen] yet) raises [AttributeError]
    and ends the loop: the instances of the slots after it are left
    running. *)
Theorem shutdown_kills_until_missing_handle :
  (forall w, (forall p, In p (Processes w) -> live_state p = true -> handle p <> None) ->
     shutdown_instances w = (inr tt, kill_all (handles_of (Processes w)) w)) /\
  (forall w k p, nth_error (Processes w) k = Some p -> live_state p = true -> handle p = None ->
     (forall q, In q (firstn k (Processes w)) -> live_state q = true -> handle q <> None) ->
     shutdown_instances w = (inl AttributeError, kill_all (handles_of (firstn k (Processes w))) w)).
Proof.
  split.
  - intros w Hok. unfold shutdown_instances, bind, procs_len.
    apply shutdown_from_all; [reflexivity | exact Hok].
  - intros w k p Hk Hl Hh Hok.
    destruct (nth_error_split _ _ Hk) as [l1 [l2 [E Hlen]]].
    assert (Hf : firstn k (Processes w) = l1).
    { rewrite E, <- Hlen, firstn_app, firstn_all, Nat.sub_diag. simpl. apply app_nil_r. }
    rewrite Hf in *. unfold shutdown_instances, bind, procs_len. rewrite E.
    apply shutdown_from_fail; [exact E | exact Hok | exact Hl | exact Hh].
Qed.

(* ------------------------------------------------------------------ *)
(** ** A deinitialization timer outliving the instance it was armed for *)

(** The delays of [runOpenspace] (direct mode), in milliseconds:
    [time.sleep(10)] between [subprocess.Popen] and the readiness
    handshake, and [asyncio.sleep(2.0)] between two polls of the spawned
    process. *)
Definition WarmUp : nat := 10000.
Definition PollPeriod : nat := 2000.

(** For each launcher thread, the clock reading at which it reached the
    point it is at ([L_Handshake] after [Popen], [L_WaitExit] after the
    handshake); newest first. *)
Definition Since := list (nat * nat).

Definition since_of (tid : nat) (ts : Since) : nat :=
  match find (fun p => Nat.eqb (fst p) tid) ts with Some (_, t) => t | None => 0 end.

(** A poll of launcher [l] happens now and finds its process gone. *)
Definition sees_exit (w : World) (ts : Since) (l : Launcher) : bool :=
  match l_pc l with
  | L_WaitExit h =>
      negb (existsb (Nat.eqb h) (alive w)) &&
      Nat.eqb ((clock w - since_of (l_tid l) ts) mod PollPeriod) 0
  | _ => false
  end.

(** Something bound to the present moment is pending: a timer whose time
    has come, a launcher thread just started (it calls [Popen] at once), or
    a poll that finds the process gone.  No time passes before it
    happens. *)
Definition urgent (w : World) (ts : Since) : bool :=
  existsb (fun t => Nat.leb (snd t) (clock w)) (timers w) ||
  existsb (fun l => match l_pc l with L_Spawn => true | _ => false end) (launchers w) ||
  existsb (sees_exit w ts) (launchers w).

(** [lstep] with the delays of the source: the handshake ends (returns or
    raises) no earlier than [WarmUp] after [Popen], the exit is seen at a
    poll, [PollPeriod] apart from the end of the handshake, and the clock
    does not advance past an urgent step. *)
Inductive tstep : Label -> World * Since -> World * Since -> Prop :=
| tstep_message w ts msg :
    tstep (LMessage msg) (w, ts) (snd (processMessage msg w), ts)
| tstep_popen w ts pre l post :
    launchers w = (pre ++ l :: post)%list -> l_pc l = L_Spawn ->
    tstep LPopen (w, ts) (launcher_popen pre l post w, (l_tid l, clock w) :: ts)
| tstep_ready w ts pre l post h :
    launchers w = (pre ++ l :: post)%list -> l_pc l = L_Handshake h ->
    since_of (l_tid l) ts + WarmUp <= clock w ->
    tstep LReady (w, ts) (launcher_ready pre l h post w, (l_tid l, clock w) :: ts)
| tstep_handshake_fails w ts pre l post h :
    launchers w = (pre ++ l :: post)%list -> l_pc l = L_Handshake h ->
    since_of (l_tid l) ts + WarmUp <= clock w ->
    tstep LHandshakeFails (w, ts) (put_launchers pre None post w, ts)
| tstep_exited w ts pre l post h :
    launchers w = (pre ++ l :: post)%list -> l_pc l = L_WaitExit h ->
    ~ In h (alive w) -> since_of (l_tid l) ts <= clock w ->
    (clock w - since_of (l_tid l) ts) mod PollPeriod = 0 ->
    tstep LExited (w, ts) (launcher_exited pre l post w, ts)
| tstep_process_exits w ts h :
    In h (alive w) -> tstep LProcessExits (w, ts) (kill h w, ts)
| tstep_tick w ts :
    urgent w ts = false -> tstep LTick (w, ts) (set_clock (S (clock w)) w, ts)
| tstep_timer w ts pre id due post :
    timers w = (pre ++ (id, due) :: post)%list -> due <= clock w ->
    tstep LTimer (w, ts)
      (setTimerForDeinitializationPeriod id (set_timers (pre ++ post)%list w), ts).

Inductive treach (capacity : nat) : World * Since -> Prop :=
| treach_init : treach capacity (init_world capacity, [])
| treach_step s lb s' : treach capacity s -> tstep lb s s' -> treach capacity s'.

(** Every timed step is a step of [lstep]. *)
Lemma tstep_lstep lb s s' : tstep lb s s' -> lstep lb (fst s) (fst s').
Proof.
  destruct 1; simpl.
  - apply step_message.
  - eapply step_popen; eassumption.
  - eapply step_ready; eassumption.
  - eapply step_handshake_fails; eassumption.
  - eapply step_exited; eassumption.
  - apply step_process_exits; assumption.
  - apply step_tick.
  - eapply step_timer; eassumption.
Qed.

Lemma treach_reachable capacity s : treach capacity s -> reachable capacity (fst s).
Proof.
  induction 1 as [|s lb s' _ IH Hs]; [apply run_init|].
  eapply run_step; [exact IH | exact I | exact (tstep_lstep _ _ _ Hs)].
Qed.

(** The timed steps, on a state given as a pair *)
Lemma tstep_message_at s msg :
  tstep (LMessage msg) s (snd (processMessage msg (fst s)), snd s).
Proof. destruct s; apply tstep_message. Qed.

Lemma tstep_popen_at s pre l post :
  launchers (fst s) = (pre ++ l :: post)%list -> l_pc l = L_Spawn ->
  tstep LPopen s (launcher_popen pre l post (fst s), (l_tid l, clock (fst s)) :: snd s).
Proof. destruct s; apply tstep_popen. Qed.

Lemma tstep_ready_at s pre l post h :
  launchers (fst s) = (pre ++ l :: post)%list -> l_pc l = L_Handshake h ->
  since_of (l_tid l) (snd s) + WarmUp <= clock (fst s) ->
  tstep LReady s (launcher_ready pre l h post (fst s), (l_tid l, clock (fst s)) :: snd s).
Proof. destruct s; apply tstep_ready. Qed.

Lemma tstep_exited_at s pre l post h :
  launchers (fst s) = (pre ++ l :: post)%list -> l_pc l = L_WaitExit h ->
  ~ In h (alive (fst s)) -> since_of (l_tid l) (snd s) <= clock (fst s) ->
  (clock (fst s) - since_of (l_tid l) (snd s)) mod PollPeriod = 0 ->
  tstep LExited s (launcher_exited pre l post (fst s), snd s).
Proof. destruct s; apply tstep_exited. Qed.

Lemma tstep_timer_at s pre id due post :
  timers (fst s) = (pre ++ (id, due) :: post)%list -> due <= clock (fst s) ->
  tstep LTimer s
    (setTimerForDeinitializationPeriod id (set_timers (pre ++ post)%list (fst s)), snd s).
Proof. destruct s; apply tstep_timer. Qed.

(** Letting [n] milliseconds pass, when nothing is urgent meanwhile *)
Lemma treach_ticks capacity s n :
  treach capacity s ->
  forallb (fun k => negb (urgent (set_clock (clock (fst s) + k) (fst s)) (snd s))) (seq 0 n)
    = true ->
  treach capacity (set_clock (clock (fst s) + n) (fst s), snd s).
Proof.
  destruct s as [w ts]; simpl.
  intros H Hu. rewrite forallb_forall in Hu.
  induction n as [|n IH].
  - rewrite Nat.add_0_r. destruct w; exact H.
  - eapply treach_step.
    + apply IH. intros k Hk. apply Hu. apply in_seq in Hk. apply in_seq. lia.
    + assert (E : set_clock (clock w + S n) w =
                  set_clock (S (clock (set_clock (clock w + n) w))) (set_clock (clock w + n) w))
        by (destruct w; cbn [set_clock clock]; now rewrite Nat.add_succ_r).
      rewrite E. apply tstep_tick.
      assert (Hn : In n (seq 0 (S n))) by (apply in_seq; lia).
      specialize (Hu n Hn). now destruct (urgent _ _).
Qed.

Ltac tr_side := first [ reflexivity | vm_compute; tauto | apply Nat.leb_le; vm_compute; reflexivity ].

(** One slot, with the delays of the source.  At 0 ms START, and the
    instance is spawned; at 10 s its handshake returns (RUNNING); at 11 s
    STOP kills it and arms the timer for 16 s; the poll at 12 s sees the
    exit (IDLE); at 12 s START again, and the new instance is spawned. *)
Definition tr_1 : World * Since := (snd (processMessage start_msg (init_world 1)), []).
Definition tr_2 : World * Since :=
  (launcher_popen [] (mkLauncher 0 0 L_Spawn) [] (fst tr_1), (0, clock (fst tr_1)) :: snd tr_1).
Definition tr_3 : World * Since := (set_clock (clock (fst tr_2) + 10000) (fst tr_2), snd tr_2).
Definition tr_4 : World * Since :=
  (launcher_ready [] (mkLauncher 0 0 (L_Handshake 0)) 0 [] (fst tr_3),
   (0, clock (fst tr_3)) :: snd tr_3).
Definition tr_5 : World * Since := (set_clock (clock (fst tr_4) + 1000) (fst tr_4), snd tr_4).
Definition tr_6 : World * Since :=
  (snd (processMessage (stop_msg (PInt 0)) (fst tr_5)), snd tr_5).
Definition tr_7 : World * Since := (set_clock (clock (fst tr_6) + 1000) (fst tr_6), snd tr_6).
Definition tr_8 : World * Since :=
  (launcher_exited [] (mkLauncher 0 0 (L_WaitExit 0)) [] (fst tr_7), snd tr_7).
Definition tr_9 : World * Since := (snd (processMessage start_msg (fst tr_8)), snd tr_8).
Definition tr_10 : World * Since :=
  (launcher_popen [] (mkLauncher 1 0 L_Spawn) [] (fst tr_9), (1, clock (fst tr_9)) :: snd tr_9).
Definition tr_11 : World * Since := (set_clock (clock (fst tr_10) + 4000) (fst tr_10), snd tr_10).

Lemma tr_11_treach : treach 1 tr_11.
Proof.
  assert (R1 : treach 1 tr_1)
    by exact (treach_step 1 (init_world 1, []) _ _ (treach_init 1) (tstep_message_at _ _)).
  assert (R2 : treach 1 tr_2)
    by (eapply treach_step; [exact R1 | apply (tstep_popen_at tr_1 []); tr_side]).
  assert (R3 : treach 1 tr_3) by (apply treach_ticks; [exact R2 | vm_compute; reflexivity]).
  assert (R4 : treach 1 tr_4)
    by (eapply treach_step; [exact R3 | apply (tstep_ready_at tr_3 []); tr_side]).
  assert (R5 : treach 1 tr_5) by (apply treach_ticks; [exact R4 | vm_compute; reflexivity]).
  assert (R6 : treach 1 tr_6) by (eapply treach_step; [exact R5 | apply tstep_message_at]).
  assert (R7 : treach 1 tr_7) by (apply treach_ticks; [exact R6 | vm_compute; reflexivity]).
  assert (R8 : treach 1 tr_8)
    by (eapply treach_step; [exact R7 | apply (tstep_exited_at tr_7 [] _ [] 0); tr_side]).
  assert (R9 : treach 1 tr_9) by (eapply treach_step; [exact R8 | apply tstep_message_at]).
  assert (R10 : treach 1 tr_10)
    by (eapply treach_step; [exact R9 | apply (tstep_popen_at tr_9 []); tr_side]).
  apply treach_ticks; [exact R10 | vm_compute; reflexivity].
Qed.

(** [setTimerForDeinitializationPeriod] sets the slot IDLE without looking
    at which instance the slot now holds.  With the delays of the source,
    the timer armed by a STOP at 11 s fires at 16 s, after the killed
    instance's exit has been seen (12 s) and a new START has taken the
    slot and spawned a new instance, whose handshake cannot end before
    22 s.  The timer sets the slot IDLE while the new instance is alive and
    its launcher is still in its warm-up; the next START then gives the
    same slot to a second launcher. *)
Theorem stale_timer_resets_restarted_slot :
  exists s s',
    treach 1 s /\ clock (fst s) = 16000 /\
    slot_state (fst s) 0 = Some INITIALIZING /\ timers (fst s) = [(0%Z, 16000)] /\
    launchers (fst s) = [mkLauncher 1 0 (L_Handshake 1)] /\ alive (fst s) = [1] /\
    since_of 1 (snd s) = 12000 /\
    tstep LTimer s s' /\
    slot_state (fst s') 0 = Some IDLE /\ launchers (fst s') = launchers (fst s) /\
    alive (fst s') = alive (fst s) /\
    exists s'', tstep (LMessage start_msg) s' s'' /\
      slot_state (fst s'') 0 = Some INITIALIZING /\
      launchers (fst s'') = [mkLauncher 1 0 (L_Handshake 1); mkLauncher 2 0 L_Spawn].
Proof.
  exists tr_11,
    (setTimerForDeinitializationPeriod 0 (set_timers ([] ++ [])%list (fst tr_11)), snd tr_11).
  split; [exact tr_11_treach|].
  do 6 (split; [vm_compute; reflexivity|]).
  split.
  - apply (tstep_timer_at tr_11 [] 0%Z 16000 []);
      [vm_compute; reflexivity | apply Nat.leb_le; vm_compute; reflexivity].
  - split; [vm_compute; reflexivity|]. split; [vm_compute; reflexivity|].
    split; [vm_compute; reflexivity|].
    eexists. split; [apply tstep_message_at|].
    split; vm_compute; reflexivity.
Qed.

(* ------------------------------------------------------------------ *)
(** ** The further properties at concrete inputs *)

Lemma status_in_range_reply_witness :
  processMessage (status_msg (PInt 2)) pool_slot2_running =
  (inr tt, set_outbox
     [PDict [("command", PStr "STATUS"); ("error", PStr "none"); ("id", PInt 0);
             ("status", PStr "RUNNING")]] pool_slot2_running).
Proof.
  exact (status_in_range_reply pool_slot2_running [("command", PStr "STATUS"); ("id", PInt 2)] 2
           (mkOsProcess RUNNING (Some 7) None None (Some 0)) eq_refl eq_refl eq_refl).
Defined.

Lemma stop_id_too_large_reply_witness :
  processMessage (stop_msg (PInt 3)) (init_world 3) =
  (inr tt, set_outbox [stop_reply 3 "invalid id"] (init_world 3)).
Proof.
  apply (stop_id_too_large_reply (init_world 3) [("command", PStr "STOP"); ("id", PInt 3)] 3);
    [reflexivity | reflexivity | simpl; lia].
Defined.

Lemma stop_status_failures_change_nothing_witness :
  processMessage (JsonText (PDict [("command", PStr "STOP")])) (init_world 3) =
    (inl KeyError, init_world 3) /\
  processMessage (status_msg (PStr "0")) (init_world 3) = (inl TypeError, init_world 3) /\
  processMessage (status_msg (PInt 7)) (init_world 3) = (inl TypeError, init_world 3) /\
  processMessage (stop_msg (PInt (-4))) (init_world 3) = (inl IndexError, init_world 3).
Proof.
  split; [|split; [|split]].
  - apply (proj1 (stop_status_failures_change_nothing (init_world 3) [("command", PStr "STOP")]
                    "STOP" eq_refl (or_introl eq_refl))).
    reflexivity.
  - apply (proj1 (proj2 (stop_status_failures_change_nothing (init_world 3)
                           [("command", PStr "STATUS"); ("id", PStr "0")] "STATUS"
                           eq_refl (or_intror eq_refl))) (PStr "0"));
      [reflexivity | right; left; exists "0"; reflexivity].
  - apply (proj1 (proj2 (proj2 (stop_status_failures_change_nothing (init_world 3)
                                  [("command", PStr "STATUS"); ("id", PInt 7)] "STATUS"
                                  eq_refl (or_intror eq_refl)))) eq_refl 7%Z);
      [reflexivity | simpl; lia].
  - apply (proj2 (proj2 (proj2 (stop_status_failures_change_nothing (init_world 3)
                                  [("command", PStr "STOP"); ("id", PInt (-4))] "STOP"
                                  eq_refl (or_introl eq_refl)))) eq_refl (-4)%Z);
      [reflexivity | simpl; lia].
Defined.

Lemma non_start_stop_touch_only_outbox_witness :
  exists l, snd (processMessage (status_msg (PInt 2)) pool_slot2_running) =
            set_outbox (outbox pool_slot2_running ++ l)%list pool_slot2_running.
Proof.
  apply non_start_stop_touch_only_outbox.
  intros d c Hm Hc. injection Hm as <-. simpl in Hc. injection Hc as <-.
  split; discriminate.
Defined.

(** Slot 1 is INITIALIZING without a handle; slots 0 and 2 run the
    instances 7 and 8. *)
Definition pool_mid_spawn : World :=
  mkWorld [mkOsProcess RUNNING (Some 7) None None (Some 0);
           mkOsProcess INITIALIZING None None None (Some 1);
           mkOsProcess RUNNING (Some 8) None None (Some 2)]
    [] [] [7; 8] 0 9 3 [].

Lemma shutdown_kills_until_missing_handle_witness :
  shutdown_instances pool_slot2_running = (inr tt, kill_all [7] pool_slot2_running) /\
  shutdown_instances pool_mid_spawn = (inl AttributeError, kill_all [7] pool_mid_spawn) /\
  alive (kill_all [7] pool_mid_spawn) = [8].
Proof.
  split; [|split].
  - apply (proj1 shutdown_kills_until_missing_handle pool_slot2_running).
    intros p Hp Hl. simpl in Hp.
    destruct Hp as [<- | [<- | [<- | []]]]; simpl in *; discriminate.
  - apply (proj2 shutdown_kills_until_missing_handle pool_mid_spawn 1
             (mkOsProcess INITIALIZING None None None (Some 1)));
      [reflexivity | reflexivity | reflexivity |].
    intros q Hq Hl. simpl in Hq. destruct Hq as [<- | []]. simpl. discriminate.
  - reflexivity.
Defined.

(* ------------------------------------------------------------------ *)
(** ** [terminateProcess]: stopping helper processes by command line *)

Module TerminateProcess.

(** [str.lower()] on ASCII text *)
Definition lower_char (c : ascii) : ascii :=
  let n := nat_of_ascii c in
  if Nat.leb 65 n && Nat.leb n 90 then ascii_of_nat (n + 32) else c.

Fixpoint lower (s : string) : string :=
  match s with
  | EmptyString => EmptyString
  | String c s' => String (lower_char c) (lower s')
  end.

(** [a in s] on strings: [a] occurs in [s] at some position *)
Fixpoint contains (a s : string) : bool :=
  String.prefix a s || match s with EmptyString => false | String _ s' => contains a s' end.

(** The [info] dict [psutil.process_iter(['pid', 'name', 'cmdline'])] fills
    in; an attribute psutil may not read is [None].  The dict always has its
    three keys, so [not proc.info] never holds. *)
Record ProcInfo := mkProcInfo {
  pi_pid : Z;
  pi_name : option string;
  pi_cmdline : option (list string)
}.

(** The exceptions that leave [terminateProcess]: only psutil's own are
    caught.  [None.lower()] raises [AttributeError], iterating over [None]
    raises [TypeError], a failing [Taskkill] raises [CalledProcessError]. *)
Inductive TPExn := TP_AttributeError | TP_TypeError | TP_CalledProcessError.

(** The two loops that set [proceedWithTermination] *)
Definition proceed_flag (processElems ignoreElems iterProcElems : list string) : bool :=
  let proceed :=
    fold_left (fun acc ignore =>
                 if existsb (fun e => contains ignore e) iterProcElems then false else acc)
      ignoreElems true in
  if Nat.ltb 0 (List.length processElems) then
    fold_left (fun acc elem =>
                 if negb (existsb (fun e => contains elem e) iterProcElems) then false else acc)
      processElems proceed
  else proceed.

(** The [for proc in psutil.process_iter(...)] loop, direct launch mode
    ([Taskkill /PID pid /F]); [taskkill_ok pid] tells whether that command
    succeeds.  The result is the exception that ends the loop, if any, and
    the pids terminated, in order. *)
Fixpoint terminate_iter (processName : string) (processElems ignoreElems : list string)
    (taskkill_ok : Z -> bool) (procs : list ProcInfo) : option TPExn * list Z :=
  match procs with
  | [] => (None, [])
  | p :: ps =>
      match pi_name p with
      | None => (Some TP_AttributeError, [])
      | Some name =>
          if negb (String.eqb (lower name) (lower processName)) then
            terminate_iter processName processElems ignoreElems taskkill_ok ps
          else match pi_cmdline p with
               | None => (Some TP_TypeError, [])
               | Some cmdline =>
                   let iterProcElems := map lower cmdline in
                   if Nat.eqb (List.length iterProcElems) 0 then
                     terminate_iter processName processElems ignoreElems taskkill_ok ps
                   else if proceed_flag processElems ignoreElems iterProcElems then
                     if taskkill_ok (pi_pid p) then
                       let (e, ks) :=
                         terminate_iter processName processElems ignoreElems taskkill_ok ps in
                       (e, pi_pid p :: ks)
                     else (Some TP_CalledProcessError, [])
                   else terminate_iter processName processElems ignoreElems taskkill_ok ps
               end
      end
  end.

(** [async def terminateProcess(processName, processElems, ignoreElems=[])] *)
Definition terminateProcess (processName : string) (processElems ignoreElems : list string)
    (taskkill_ok : Z -> bool) (procs : list ProcInfo) : option TPExn * list Z :=
  terminate_iter processName (map lower processElems) (map lower ignoreElems) taskkill_ok procs.

(** The processes the docstring describes: the executable name matches
    (ignoring case), the command line is not empty, every element of
    [processElems] occurs in one of its elements and no element of
    [ignoreElems] occurs in any (ignoring case). *)
Definition selected (processName : string) (processElems ignoreElems : list string)
    (p : ProcInfo) : bool :=
  match pi_name p, pi_cmdline p with
  | Some name, Some cmdline =>
      String.eqb (lower name) (lower processName) &&
      negb (Nat.eqb (List.length cmdline) 0) &&
      forallb (fun elem => existsb (fun e => contains (lower elem) (lower e)) cmdline)
        processElems &&
      negb (existsb (fun ig => existsb (fun e => contains (lower ig) (lower e)) cmdline)
              ignoreElems)
  | _, _ => false
  end.

(** psutil could read the process's name, and its command line if the
    name matches. *)
Definition readable (processName : string) (p : ProcInfo) : Prop :=
  exists name, pi_name p = Some name /\
    (String.eqb (lower name) (lower processName) = true -> pi_cmdline p <> None).

Lemma fold_ignore (f : string -> bool) l b :
  fold_left (fun acc x => if f x then false else acc) l b = b && negb (existsb f l).
Proof.
  revert b; induction l as [|x l IH]; intros b; simpl.
  - now rewrite andb_true_r.
  - rewrite IH. destruct (f x); simpl; [now rewrite andb_false_r | reflexivity].
Qed.

Lemma fold_require (f : string -> bool) l b :
  fold_left (fun acc x => if negb (f x) then false else acc) l b = b && forallb f l.
Proof.
  revert b; induction l as [|x l IH]; intros b; simpl.
  - now rewrite andb_true_r.
  - rewrite IH. destruct (f x); simpl; [reflexivity | now rewrite andb_false_r].
Qed.

Lemma exists_lower a cmdline :
  existsb (fun e => contains a e) (map lower cmdline) =
  existsb (fun e => contains a (lower e)) cmdline.
Proof. induction cmdline as [|x l IH]; simpl; congruence. Qed.

Lemma ignore_lower cmdline l :
  existsb (fun ig => existsb (fun e => contains ig e) (map lower cmdline)) (map lower l) =
  existsb (fun ig => existsb (fun e => contains (lower ig) (lower e)) cmdline) l.
Proof. induction l as [|x l IH]; simpl; [reflexivity|]. now rewrite exists_lower, IH. Qed.

Lemma require_lower cmdline l :
  forallb (fun elem => existsb (fun e => contains elem e) (map lower cmdline)) (map lower l) =
  forallb (fun elem => existsb (fun e => contains (lower elem) (lower e)) cmdline) l.
Proof. induction l as [|x l IH]; simpl; [reflexivity|]. now rewrite exists_lower, IH. Qed.

Lemma proceed_flag_spec processElems ignoreElems cmdline :
  proceed_flag (map lower processElems) (map lower ignoreElems) (map lower cmdline) =
  forallb (fun elem => existsb (fun e => contains (lower elem) (lower e)) cmdline) processElems &&
  negb (existsb (fun ig => existsb (fun e => contains (lower ig) (lower e)) cmdline)
          ignoreElems).
Proof.
  unfold proceed_flag. cbv zeta. destruct processElems as [|x xs].
  - change (Nat.ltb 0 (List.length (map lower []))) with false. cbv iota.
    rewrite fold_ignore, ignore_lower. reflexivity.
  - change (Nat.ltb 0 (List.length (map lower (x :: xs)))) with true. cbv iota.
    rewrite fold_require, fold_ignore, ignore_lower, require_lower.
    destruct (forallb _ _), (existsb _ _); reflexivity.
Qed.

Lemma terminate_prefix processName processElems ignoreElems taskkill_ok pre rest :
  (forall pid, taskkill_ok pid = true) ->
  Forall (readable processName) pre ->
  terminateProcess processName processElems ignoreElems taskkill_ok (pre ++ rest)%list =
  let (e, ks) := terminateProcess processName processElems ignoreElems taskkill_ok rest in
  (e, map pi_pid (filter (selected processName processElems ignoreElems) pre) ++ ks)%list.
Proof.
  intros Hok Hr. unfold terminateProcess.
  induction Hr as [|p pre [name [Hn Hc]] Hr IH]; simpl.
  - destruct (terminate_iter _ _ _ _ rest); reflexivity.
  - unfold selected. rewrite Hn.
    destruct (String.eqb (lower name) (lower processName)) eqn:Eq;
      [|destruct (pi_cmdline p); simpl; exact IH].
    destruct (pi_cmdline p) as [cmdline|]; [|exfalso; now apply Hc].
    simpl. rewrite length_map. destruct (Nat.eqb (List.length cmdline) 0); simpl; [exact IH|].
    rewrite proceed_flag_spec.
    destruct (forallb _ _ && negb _); simpl; [|exact IH].
    rewrite Hok, IH.
    destruct (terminate_iter _ _ _ _ rest); reflexivity.
Qed.

(** With [Taskkill] succeeding and psutil able to read the processes,
    [terminateProcess] terminates exactly the processes whose executable
    name equals [processName] and whose command line is not empty, contains
    every element of [processElems] and no element of [ignoreElems] as a
    substring of one of its elements, all ignoring case; with an empty
    [processElems] every such process of that name is terminated. *)
Theorem terminateProcess_selects (processName : string) (processElems ignoreElems : list string)
    (taskkill_ok : Z -> bool) (procs : list ProcInfo) :
  (forall pid, taskkill_ok pid = true) ->
  Forall (readable processName) procs ->
  terminateProcess processName processElems ignoreElems taskkill_ok procs =
  (None, map pi_pid (filter (selected processName processElems ignoreElems) procs)).
Proof.
  intros Hok Hr. rewrite <- (app_nil_r procs).
  rewrite (terminate_prefix _ _ _ _ procs [] Hok Hr). simpl.
  now rewrite !app_nil_r.
Qed.

(** A process of the given name whose command line psutil cannot read
    ([cmdline] is [None]) makes [terminateProcess] raise [TypeError]: the
    processes before it are handled, those after it are never terminated,
    whatever their command lines. *)
Theorem terminateProcess_unreadable_cmdline_aborts (processName : string)
    (processElems ignoreElems : list string) (taskkill_ok : Z -> bool)
    (pre : list ProcInfo) (p : ProcInfo) (post : list ProcInfo) (name : string) :
  (forall pid, taskkill_ok pid = true) ->
  Forall (readable processName) pre ->
  pi_name p = Some name -> String.eqb (lower name) (lower processName) = true ->
  pi_cmdline p = None ->
  terminateProcess processName processElems ignoreElems taskkill_ok (pre ++ p :: post)%list =
  (Some TP_TypeError, map pi_pid (filter (selected processName processElems ignoreElems) pre)).
Proof.
  intros Hok Hr Hn Heq Hc.
  rewrite (terminate_prefix _ _ _ _ pre (p :: post) Hok Hr).
  unfold terminateProcess at 1. simpl. rewrite Hn, Heq, Hc. simpl.
  now rewrite app_nil_r.
Qed.

(** A frontend server started with [npm start], a webpack dev server, a
    node process psutil may not inspect, and an unrelated process. *)
Definition sample_procs : list ProcInfo :=
  [mkProcInfo 10 (Some "Node.exe") (Some ["node"; "C:\webgui\Start.js"]);
   mkProcInfo 11 (Some "node.exe") (Some ["node"; "webpack-dev-server"]);
   mkProcInfo 12 (Some "python.exe") None].

Lemma terminateProcess_selects_witness :
  terminateProcess "node.exe" ["start"] [] (fun _ => true) sample_procs = (None, [10%Z]) /\
  terminateProcess "node.exe" [] ["webpack"] (fun _ => true) sample_procs = (None, [10%Z]).
Proof.
  split.
  - etransitivity;
      [apply (terminateProcess_selects "node.exe" ["start"] [] (fun _ => true) sample_procs);
         [reflexivity |] | vm_compute; reflexivity].
    repeat constructor; eexists; (split; [reflexivity|]); intros H;
      (discriminate || (vm_compute in H; discriminate)).
  - etransitivity;
      [apply (terminateProcess_selects "node.exe" [] ["webpack"] (fun _ => true) sample_procs);
         [reflexivity |] | vm_compute; reflexivity].
    repeat constructor; eexists; (split; [reflexivity|]); intros H;
      (discriminate || (vm_compute in H; discriminate)).
Defined.

Lemma terminateProcess_unreadable_cmdline_aborts_witness :
  terminateProcess "node.exe" ["start"] [] (fun _ => true)
    [mkProcInfo 10 (Some "node.exe") (Some ["node"; "start.js"]);
     mkProcInfo 13 (Some "node.exe") None;
     mkProcInfo 14 (Some "node.exe") (Some ["node"; "start.js"])] =
  (Some TP_TypeError, [10%Z]).
Proof.
  etransitivity;
    [apply (terminateProcess_unreadable_cmdline_aborts "node.exe" ["start"] [] (fun _ => true)
              [mkProcInfo 10 (Some "node.exe") (Some ["node"; "start.js"])]
              (mkProcInfo 13 (Some "node.exe") None)
              [mkProcInfo 14 (Some "node.exe") (Some ["node"; "start.js"])] "node.exe");
       [reflexivity | | reflexivity | vm_compute; reflexivity | reflexivity]
    | vm_compute; reflexivity].
  repeat constructor; eexists; (split; [reflexivity|]); intros H; discriminate.
Defined.

End TerminateProcess.

Module Proxy.

Definition BASE_PORT : Z := 4682.
Definition MAX_OFFSET : Z := 100.

(** What the handler does with the inbound connection, in order. *)
Inductive Event :=
| Connect (uri : string)          (* [websockets.connect(target_uri, ...)] *)
| SendReady                       (* [connection.send('{"status": "ready"}')] *)
| Forward                         (* the two [forward] loops *)
| Close (code : Z) (reason : string).

(** [s.lstrip(chars)] on the characters of a string *)
Fixpoint lstrip (p : ascii -> bool) (l : list ascii) : list ascii :=
  match l with
  | [] => []
  | c :: l' => if p c then lstrip p l' else l
  end.

(** [s.strip(chars)] *)
Definition strip_by (p : ascii -> bool) (l : list ascii) : list ascii :=
  rev (lstrip p (rev (lstrip p l))).

(** ASCII characters that [int()] skips around a number ([str.isspace]) *)
Definition is_space (c : ascii) : bool :=
  let n := nat_of_ascii c in
  (Nat.leb 9 n && Nat.leb n 13) || (Nat.leb 28 n && Nat.leb n 32).

Definition is_digit (c : ascii) : bool :=
  let n := nat_of_ascii c in Nat.leb 48 n && Nat.leb n 57.

Definition digit_value (c : ascii) : Z := Z.of_nat (nat_of_ascii c - 48).

(** The digits of a base-10 literal, a single [_] allowed between two
    digits. *)
Fixpoint digits_aux (l : list ascii) (acc : Z) (after_underscore : bool) : option Z :=
  match l with
  | [] => if after_underscore then None else Some acc
  | c :: l' =>
      if is_digit c then digits_aux l' (acc * 10 + digit_value c)%Z false
      else if Ascii.eqb c "_"%char && negb after_underscore then digits_aux l' acc true
      else None
  end.

Definition parse_digits (l : list ascii) : option Z :=
  match l with
  | c :: l' => if is_digit c then digits_aux l' (digit_value c) false else None
  | [] => None
  end.

(** [int(s)] on an ASCII string ([None] is [ValueError]) *)
Definition py_int (s : string) : option Z :=
  match strip_by is_space (list_ascii_of_string s) with
  | c :: l =>
      if Ascii.eqb c "-"%char then option_map Z.opp (parse_digits l)
      else if Ascii.eqb c "+"%char then parse_digits l
      else parse_digits (c :: l)
  | [] => None
  end.

(** [path.strip('/')] *)
Definition strip_slashes (path : string) : string :=
  string_of_list_ascii (strip_by (fun c => Ascii.eqb c "/"%char) (list_ascii_of_string path)).

Definition startswith_slash (path : string) : bool :=
  match path with String c _ => Ascii.eqb c "/"%char | EmptyString => false end.

(** [async def handler(connection)]; [target_ok uri] tells whether the
    outbound [websockets.connect] to [uri] succeeds. *)
Definition handler (path : string) (target_ok : string -> bool) : list Event :=
  if String.eqb path "/ws" then
    let target_uri := "ws://openspaceweb.com:4690/ws" in
    if target_ok target_uri then [Connect target_uri; Forward]
    else [Connect target_uri; Close 1011 "Target connection failed"]
  else if negb (startswith_slash path) then [Close 1008 "Invalid path"]
  else match py_int (strip_slashes path) with
       | None => [Close 1008 "Invalid port format"]
       | Some port =>
           if negb ((port =? 8443)%Z || ((BASE_PORT <=? port)%Z && (port <=? BASE_PORT + MAX_OFFSET)%Z))
           then [Close 1008 "Invalid port range"]
           else
             let target_uri := "ws://openspaceweb.com:" ++ string_of_Z port in
             if target_ok target_uri then [Connect target_uri; SendReady; Forward]
             else [Connect target_uri; Close 1011 "Target connection failed"]
       end.

Example handler_99999 : handler "/99999" (fun _ => true) = [Close 1008 "Invalid port range"].
Proof. reflexivity. Qed.
Example handler_4700 :
  handler "/4700" (fun _ => true) = [Connect "ws://openspaceweb.com:4700"; SendReady; Forward].
Proof. reflexivity. Qed.
Example handler_abc : handler "/abc" (fun _ => true) = [Close 1008 "Invalid port format"].
Proof. reflexivity. Qed.
Example handler_underscore :
  handler "//4_700/" (fun _ => true) = [Connect "ws://openspaceweb.com:4700"; SendReady; Forward].
Proof. reflexivity. Qed.





















(* ------------------------------------------------------------------ *)
(** ** What the handler does with a connection *)


(* ------------------------------------------------------------------ *)
(** ** Spellings of a port in the path *)














End Proxy.
